(** * The repository synchronization engine of gdoc

    A shallow embedding of [internal/syncer]: the [Repo] record, the
    [Syncer] with its retained record set, the change detector [update],
    one polling cycle [sync], the mirror manager [get] / [clone] / [pull]
    and the poll loop [Start].

    Go strings are [string]; the Go map [map[string]*Repo] is a
    [gmap string Repo]. Every [*Repo] stored in the map is allocated
    freshly by [sync] and is only read after it has been stored ([get],
    [clone], [pull] and the logger read its fields), so the pointer in the
    map and the value it points to can be identified. *)

From Stdlib Require Import ZArith Lia Ascii.
From stdpp Require Import gmap strings list.

Local Open Scope Z_scope.

(** ** Data model *)

(** [syncer.Repo] *)
Record Repo := mkRepo {
  Owner : string;
  Name : string;
  CloneURL : string;
  CommitSHA : string;
  LocalPath : string
}.

(** [syncer.SyncerOptions]; the [Logger] field is the sink that the event
    trace below records. *)
Record SyncerOptions := mkOptions {
  GithubToken : string;
  GithubTokenUser : string;
  GithubUser : string;
  GithubTopic : string;
  GithubPollInterval : string;
  GoRoot : string
}.

(** [syncer.Syncer] *)
Record Syncer := mkSyncer {
  options : SyncerOptions;
  repos : gmap string Repo
}.

(** [syncer.New] *)
Definition New (opts : SyncerOptions) : Syncer :=
  {| options := opts; repos := ∅ |}.

Definition set_repos (rs : Syncer) (m : gmap string Repo) : Syncer :=
  {| options := options rs; repos := m |}.

(** ** The change detector *)

(** The map key [update] computes: [r.Name + "/" + r.Owner]. *)
Definition key (r : Repo) : string := Name r +:+ "/" +:+ Owner r.

(** [Syncer.update]: [true] when the repository is new or its commit SHA
    differs from the retained one; the retained record is then replaced. *)
Definition update (rs : Syncer) (r : Repo) : bool * Syncer :=
  let name := key r in
  match repos rs !! name with
  | None => (true, set_repos rs (<[name := r]> (repos rs)))
  | Some old =>
      if String.eqb (CommitSHA r) (CommitSHA old)
      then (false, rs)
      else (true, set_repos rs (<[name := r]> (repos rs)))
  end.

(** The answers of [update] on a sequence of observations, in order. *)
Fixpoint observe (rs : Syncer) (obs : list Repo) : list bool * Syncer :=
  match obs with
  | [] => ([], rs)
  | r :: obs' =>
      let '(b, rs1) := update rs r in
      let '(bs, rs2) := observe rs1 obs' in
      (b :: bs, rs2)
  end.

(** Every retained record sits under its own key. *)
Definition keyed (rs : Syncer) : Prop :=
  forall k r, repos rs !! k = Some r -> k = key r.

(** A string without a slash, as the names of the hosting service are. *)
Fixpoint plain (s : string) : bool :=
  match s with
  | EmptyString => true
  | String c s' => negb (Ascii.eqb c "/"%char) && plain s'
  end.

(** ** The world outside the process *)

(** Go [error] values. [os.IsNotExist] holds of the first form only. *)
Inductive error :=
| PathErrorNotExist (path : string)
| ErrorString (msg : string).

(** [os.IsNotExist]; a nil error is not a not-exist error. *)
Definition os_IsNotExist (err : option error) : bool :=
  match err with
  | Some (PathErrorNotExist _) => true
  | _ => false
  end.

(** The part of go-github the engine reads. Pointer-typed fields are
    options: [None] is the nil pointer, and dereferencing it panics. *)
Module github.
Record User := mkUser { Login : option string }.
Record Repository := mkRepository {
  Owner : option User;
  Name : option string;
  FullName : option string;
  CloneURL : option string;
  DefaultBranch : option string
}.
Record RepositoriesSearchResult := mkResult {
  Total : option Z;
  Repositories : list (option Repository)
}.
Record RepositoryCommit := mkCommit { SHA : option string }.
Record Branch := mkBranch { Commit : option RepositoryCommit }.
End github.

(** The part of go-git the engine uses. *)
Module git.
Record BasicAuth := mkAuth { Username : string; Password : string }.
Record CloneOptions := mkCloneOptions { CloneAuth : BasicAuth; URL : string }.
Record PullOptions := mkPullOptions {
  PullAuth : BasicAuth;
  RemoteName : string;
  Depth : Z
}.
(** Handles returned by [PlainOpen] and [Worktree]. *)
Record Repository := mkRepository { repository_path : string }.
Record Worktree := mkWorktree { worktree_path : string }.
End git.

(** [time.Duration], in nanoseconds. *)
Definition Duration := Z.

(** [*time.Ticker] *)
Record Ticker := mkTicker { ticker_period : Duration }.

(** The two cases of the [select] in [Start]. *)
Inductive SelectCase := SelTick | SelDone.

(** The libraries and the runtime the engine calls, as operations on a
    world [W] (hosting service, filesystem, clock, signals). The engine is
    verified for every implementation of this interface. *)
Class Extern (W : Type) := {
  (** [client.Search.Repositories(ctx, q, opts)] *)
  Search_Repositories : string -> W -> (error + github.RepositoriesSearchResult) * W;
  (** [client.Repositories.GetBranch(ctx, owner, repo, branch, followRedirects)] *)
  Repositories_GetBranch : string -> string -> string -> bool -> W -> (error + github.Branch) * W;
  (** [os.Stat(path)], its error only *)
  os_Stat : string -> W -> option error * W;
  (** [git.PlainClone(path, isBare, opts)], its error only *)
  git_PlainClone : string -> bool -> git.CloneOptions -> W -> option error * W;
  (** [git.PlainOpen(path)] *)
  git_PlainOpen : string -> W -> (error + git.Repository) * W;
  (** [p.Worktree()] *)
  Repository_Worktree : git.Repository -> W -> (error + git.Worktree) * W;
  (** [w.Pull(opts)] *)
  Worktree_Pull : git.Worktree -> git.PullOptions -> W -> option error * W;
  (** [time.ParseDuration(s)] *)
  time_ParseDuration : string -> error + Duration;
  (** [time.NewTicker(d)] for [d > 0] *)
  time_NewTicker : Duration -> W -> Ticker * W;
  (** [ticker.Stop()] *)
  Ticker_Stop : Ticker -> W -> W;
  (** the clock *)
  now : W -> Z;
  (** whether [ctx.Done()] is closed *)
  ctx_done : W -> bool;
  (** whether a tick is buffered in [ticker.C] *)
  chan_ready : Ticker -> W -> bool;
  (** receiving the buffered tick *)
  chan_recv : Ticker -> W -> W;
  (** the runtime's choice among two ready cases *)
  pick_ready : W -> SelectCase * W;
  (** blocking until the first of the two cases becomes ready: the case
      that woke the goroutine and the world at that time, or [None] when
      neither ever does *)
  park : Ticker -> W -> option (SelectCase * W)
}.

(** ** Events and the state of a run *)

Inductive Level := Debug | Info | Error.

(** zap fields *)
Inductive Field :=
| zap_String (k v : string)
| zap_Int (k : string) (v : Z)
| zap_Error (err : error)
| zap_Any_repo (k : string) (r : Repo)
| zap_Any_string (k : string) (p : option string).

(** What the engine does to the outside, in order. *)
Inductive Event :=
| Log (lvl : Level) (msg : string) (fields : list Field)
| CallSearch (q : string)
| CallGetBranch (owner name branch : string) (followRedirects : bool)
| CallStat (path : string)
| CallPlainClone (path : string) (isBare : bool) (o : git.CloneOptions)
| CallPlainOpen (path : string)
| CallWorktree (p : git.Repository)
| CallPull (w : git.Worktree) (o : git.PullOptions)
| CallNewTicker (d : Duration)
| Select
| CallTickerStop.

(** An event with the clock and the state of the context when it began. *)
Record Entry := mkEntry { at_time : Z; at_done : bool; ev : Event }.

Definition events (tr : list Entry) : list Event := map ev tr.

Section Engine.
Context {W : Type} `{Extern W}.

Record State := mkState {
  rs : Syncer;
  world : W;
  trace : list Entry
}.

(** A computation either completes or panics. *)
Inductive Res (A : Type) :=
| Ok (a : A) (σ : State)
| Panic (msg : string) (σ : State).
Arguments Ok {A} a σ.
Arguments Panic {A} msg σ.

Definition M (A : Type) : Type := State -> Res A.

#[global] Instance M_ret : MRet M := fun A a σ => Ok a σ.
#[global] Instance M_bind : MBind M := fun A B f m σ =>
  match m σ with
  | Ok a σ' => f a σ'
  | Panic msg σ' => Panic msg σ'
  end.

Definition panic {A} (msg : string) : M A := fun σ => Panic msg σ.

Definition record (e : Event) (σ : State) : State :=
  {| rs := rs σ; world := world σ;
     trace := trace σ ++ [mkEntry (now (world σ)) (ctx_done (world σ)) e] |}.

Definition set_world (w : W) (σ : State) : State :=
  {| rs := rs σ; world := w; trace := trace σ |}.

Definition set_rs (s : Syncer) (σ : State) : State :=
  {| rs := s; world := world σ; trace := trace σ |}.

(** A call to the outside: recorded, then answered by the world. *)
Definition extern {A} (e : Event) (op : W -> A * W) : M A := fun σ =>
  let '(a, w') := op (world σ) in
  Ok a (set_world w' (record e σ)).

(** [rs.logger.Debug], [rs.logger.Info], [rs.logger.Error] *)
Definition log (lvl : Level) (msg : string) (fields : list Field) : M unit :=
  fun σ => Ok tt (record (Log lvl msg fields) σ).

Definition get_options : M SyncerOptions := fun σ => Ok (options (rs σ)) σ.

(** Dereferencing a pointer. *)
Definition deref {A} (p : option A) : M A :=
  match p with
  | Some a => mret a
  | None => panic "invalid memory address or nil pointer dereference"
  end.

(** [rs.update(r)] on the state of the run. *)
Definition do_update (r : Repo) : M bool := fun σ =>
  let '(changed, s) := update (rs σ) r in Ok changed (set_rs s σ).

Fixpoint for_each {A} (body : A -> M unit) (l : list A) : M unit :=
  match l with
  | [] => mret tt
  | x :: l' => body x ;; for_each body l'
  end.

(** ** The mirror manager *)

Definition basic_auth (o : SyncerOptions) : git.BasicAuth :=
  git.mkAuth (GithubTokenUser o) (GithubToken o).

(** [Syncer.clone] *)
Definition clone (r : Repo) : M (option error) :=
  log Info "cloning repository" [zap_Any_repo "repo" r] ;;
  o ← get_options;
  let opts := git.mkCloneOptions (basic_auth o) (CloneURL r) in
  extern (CallPlainClone (LocalPath r) false opts)
         (git_PlainClone (LocalPath r) false opts).

(** [Syncer.pull] *)
Definition pull (r : Repo) : M (option error) :=
  log Info "pulling repository" [zap_Any_repo "repo" r] ;;
  p ← extern (CallPlainOpen (LocalPath r)) (git_PlainOpen (LocalPath r));
  match p with
  | inl err => mret (Some err)
  | inr p =>
      w ← extern (CallWorktree p) (Repository_Worktree p);
      match w with
      | inl err => mret (Some err)
      | inr w =>
          o ← get_options;
          let opts := git.mkPullOptions (basic_auth o) "origin" 1 in
          extern (CallPull w opts) (Worktree_Pull w opts)
      end
  end.

(** [Syncer.get] *)
Definition get (r : Repo) : M (option error) :=
  err ← extern (CallStat (LocalPath r)) (os_Stat (LocalPath r));
  if os_IsNotExist err then clone r else pull r.

(** ** One polling cycle *)

(** The body of the loop of [sync] over [result.Repositories]. *)
Definition sync_repo (repo : option github.Repository) : M unit :=
  o ← get_options;
  repo ← deref repo;
  owner ← deref (github.Owner repo);
  login ← deref (github.Login owner);
  name ← deref (github.Name repo);
  url ← deref (github.CloneURL repo);
  full ← deref (github.FullName repo);
  let r := mkRepo login name url "" (GoRoot o +:+ "/src/github.com/" +:+ full) in
  default ← deref (github.DefaultBranch repo);
  b ← extern (CallGetBranch (Owner r) (Name r) default true)
             (Repositories_GetBranch (Owner r) (Name r) default true);
  match b with
  | inl err => log Error "unable to get commit" [zap_Error err]
  | inr branch =>
      commit ← deref (github.Commit branch);
      sha ← deref (github.SHA commit);
      let r := mkRepo (Owner r) (Name r) (CloneURL r) sha (LocalPath r) in
      changed ← do_update r;
      if negb changed then
        log Debug "repository has not changed"
            [zap_Any_repo "repo" r; zap_Any_string "sha" (github.SHA commit)]
      else
        log Info "processing repository update"
            [zap_Any_repo "repo" r; zap_Any_string "sha" (github.SHA commit)] ;;
        err ← get r;
        match err with
        | Some e => log Error "unable to update repository" [zap_Error e]
        | None => mret tt
        end
  end.

(** [Syncer.sync]. The authenticated client is built without touching
    the network. *)
Definition sync : M unit :=
  o ← get_options;
  let q := "language:go user:" +:+ GithubUser o +:+ " topic:" +:+ GithubTopic o in
  log Debug "query string" [zap_String "query" q] ;;
  res ← extern (CallSearch q) (Search_Repositories q);
  match res with
  | inl err => log Error "search failed" [zap_Error err]
  | inr result =>
      total ← deref (github.Total result);
      log Debug "search" [zap_Int "total" total] ;;
      for_each sync_repo (github.Repositories result)
  end.

(** ** The poll loop *)

(** The [select] over [ticker.C] and [ctx.Done()]: a ready case is
    taken, the runtime chooses when both are ready, and the goroutine
    parks when neither is. *)
Definition select (tk : Ticker) (w : W) : option (SelectCase * W) :=
  match chan_ready tk w, ctx_done w with
  | true, true =>
      let '(c, w1) := pick_ready w in
      Some (c, match c with SelTick => chan_recv tk w1 | SelDone => w1 end)
  | true, false => Some (SelTick, chan_recv tk w)
  | false, true => Some (SelDone, w)
  | false, false => park tk w
  end.

(** How a run of [Start] stands after a bounded number of iterations. *)
Inductive Outcome :=
| Returned (err : option error) (σ : State)
| Crashed (msg : string) (σ : State)
| Blocked (σ : State)
| Running (σ : State).

(** The deferred [ticker.Stop()]. *)
Definition stop (tk : Ticker) (σ : State) : State :=
  set_world (Ticker_Stop tk (world σ)) (record CallTickerStop σ).

(** The [for { select { ... } }] of [Start]; [fuel] bounds the number of
    iterations that are followed. *)
Fixpoint poll (fuel : nat) (tk : Ticker) (σ : State) : Outcome :=
  match fuel with
  | O => Running σ
  | S fuel' =>
      match select tk (world σ) with
      | None => Blocked (record Select σ)
      | Some (SelTick, w') =>
          match sync (set_world w' (record Select σ)) with
          | Ok _ σ' => poll fuel' tk σ'
          | Panic msg σ' => Crashed msg (stop tk σ')
          end
      | Some (SelDone, w') => Returned None (stop tk (set_world w' (record Select σ)))
      end
  end.

(** [time.NewTicker] panics on a non-positive duration. *)
Definition NewTicker (d : Duration) : M Ticker :=
  if d <=? 0 then
    fun σ => Panic "non-positive interval for NewTicker" (record (CallNewTicker d) σ)
  else extern (CallNewTicker d) (time_NewTicker d).

(** [Syncer.Start] *)
Definition Start (fuel : nat) (σ : State) : Outcome :=
  match time_ParseDuration (GithubPollInterval (options (rs σ))) with
  | inl err => Returned (Some err) σ
  | inr d =>
      match NewTicker d σ with
      | Panic msg σ' => Crashed msg σ'
      | Ok tk σ' => poll fuel tk σ'
      end
  end.

(** [cycles tk n σ σ']: from [σ], the select takes the tick [n] times in a
    row, each cycle completes, and the run stands at [σ']. *)
Inductive cycles (tk : Ticker) : nat -> State -> State -> Prop :=
| cycles_O (σ : State) : cycles tk O σ σ
| cycles_S (n : nat) (σ σ1 σ' : State) (w : W) :
    select tk (world σ) = Some (SelTick, w) ->
    sync (set_world w (record Select σ)) = Ok tt σ1 ->
    cycles tk n σ1 σ' ->
    cycles tk (S n) σ σ'.

(** The options [clone] and [pull] hand to go-git. *)
Definition clone_options (r : Repo) (σ : State) : git.CloneOptions :=
  git.mkCloneOptions (basic_auth (options (rs σ))) (CloneURL r).

Definition pull_options (σ : State) : git.PullOptions :=
  git.mkPullOptions (basic_auth (options (rs σ))) "origin" 1.

End Engine.

Arguments Ok {W A} a σ.
Arguments Panic {W A} msg σ.
Arguments State W : clear implicits.
Arguments Outcome W : clear implicits.

(** ** Vocabulary for the statements *)

(** The fields [sync] reads from an entry of the listing, when none of the
    pointers on the way is nil. *)
Record Listed := mkListed {
  l_login : string;
  l_name : string;
  l_url : string;
  l_full : string;
  l_default : string
}.

Definition entry_fields (repo : option github.Repository) : option Listed :=
  repo ← repo;
  owner ← github.Owner repo;
  login ← github.Login owner;
  name ← github.Name repo;
  url ← github.CloneURL repo;
  full ← github.FullName repo;
  default ← github.DefaultBranch repo;
  Some (mkListed login name url full default).

(** The commit SHA of a branch, when neither pointer is nil. *)
Definition head_sha (b : github.Branch) : option string :=
  commit ← github.Commit b; github.SHA commit.

(** The record [sync] builds for a listed repository at a commit. *)
Definition observed (o : SyncerOptions) (f : Listed) (sha : string) : Repo :=
  mkRepo (l_login f) (l_name f) (l_url f) sha
         (GoRoot o +:+ "/src/github.com/" +:+ l_full f).

(** The branch lookup [sync] issues for a listed repository. *)
Definition lookup_of (f : Listed) : Event :=
  CallGetBranch (l_login f) (l_name f) (l_default f) true.

Definition is_lookup (e : Event) : bool :=
  match e with CallGetBranch _ _ _ _ => true | _ => false end.

Definition is_clone (e : Event) : bool :=
  match e with CallPlainClone _ _ _ => true | _ => false end.

(** The search query of [sync]. *)
Definition query (o : SyncerOptions) : string :=
  "language:go user:" +:+ GithubUser o +:+ " topic:" +:+ GithubTopic o.

Definition is_mirror_call (e : Event) : bool :=
  match e with
  | CallPlainClone _ _ _ | CallPlainOpen _ | CallPull _ _ => true
  | _ => false
  end.

(** The branch lookups of a trace, in order. *)
Definition lookups (tr : list Entry) : list Event := filter is_lookup (events tr).

(** The state of a run after the branch lookup for [f] was answered with
    world [w]. *)
Definition looked_up {W} `{Extern W} (f : Listed) (w : W) (σ : State W) : State W :=
  set_world w (record (lookup_of f) σ).

(** The contract of [time.Ticker] the engine relies on: the first tick of
    a ticker is not received before one period has passed since
    [time.NewTicker] was called. *)
Definition ticker_contract (W : Type) `{Extern W} : Prop :=
  forall (d : Duration) (w w2 : W),
    0 < d ->
    select (time_NewTicker d w).1 (time_NewTicker d w).2 = Some (SelTick, w2) ->
    now w + d <= now w2.

(** The hosting service never answers a branch lookup with a branch that
    lacks its commit SHA. *)
Definition branches_complete (W : Type) `{Extern W} : Prop :=
  forall owner name branch follow (w w1 : W) b,
    Repositories_GetBranch owner name branch follow w = (inr b, w1) ->
    is_Some (head_sha b).

(** Once the context is cancelled, the processing of no further repository
    begins: no branch lookup starts with the context done. *)
Definition stops_at_cancellation (tr : list Entry) : Prop :=
  forall e, e ∈ tr -> at_done e = true -> is_lookup (ev e) = false.

(** The state in which the loop body of [sync] calls [get] for the listed
    repository [f] at commit [sha]: the branch lookup was answered with
    world [w], [update] left the syncer [s], and the update was logged. *)
Definition before_get {W} `{Extern W} (f : Listed) (sha : string) (s : Syncer)
    (w : W) (σ : State W) : State W :=
  record (Log Info "processing repository update"
            [zap_Any_repo "repo" (observed (options (rs σ)) f sha);
             zap_Any_string "sha" (Some sha)])
    (set_rs s (looked_up f w σ)).

(** What the libraries answer when the mirror of [r] is brought up to date
    from the state [σ]: after the stat, a missing path makes
    [git.PlainClone] the operation and the failure is its error; otherwise
    the failure is the error of [git.PlainOpen], or else of [Worktree], or
    else of [Pull], whichever comes first. *)
Definition mirror_fails {W} `{Extern W} (r : Repo) (σ : State W) (e : error) : Prop :=
  let st := os_Stat (LocalPath r) (world σ) in
  if os_IsNotExist st.1 then
    (git_PlainClone (LocalPath r) false (clone_options r σ) st.2).1 = Some e
  else
    match git_PlainOpen (LocalPath r) st.2 with
    | (inl err, _) => err = e
    | (inr p, w2) =>
        match Repository_Worktree p w2 with
        | (inl err, _) => err = e
        | (inr wt, w3) => (Worktree_Pull wt (pull_options σ) w3).1 = Some e
        end
    end.

(** The state in which a computation ends, completed or panicked. *)
Definition final {W A} (r : Res (W := W) A) : State W :=
  match r with
  | Ok _ σ => σ
  | Panic _ σ => σ
  end.

(** The state in which a run of [Start] stands. *)
Definition outcome_state {W} (o : Outcome W) : State W :=
  match o with
  | Returned _ σ => σ
  | Crashed _ σ => σ
  | Blocked σ => σ
  | Running σ => σ
  end.

Definition is_search (e : Event) : bool :=
  match e with CallSearch _ => true | _ => false end.

Definition is_stat (e : Event) : bool :=
  match e with CallStat _ => true | _ => false end.

(** The first call of a mirror operation: the clone, or the opening of the
    working copy for a pull. *)
Definition is_mirror_start (e : Event) : bool :=
  match e with CallPlainClone _ _ _ | CallPlainOpen _ => true | _ => false end.

Definition is_select (e : Event) : bool :=
  match e with Select => true | _ => false end.

(** The events of a cycle: everything but the ticker and the select. *)
Definition is_cycle_event (e : Event) : bool :=
  match e with
  | CallNewTicker _ | Select | CallTickerStop => false
  | _ => true
  end.

Definition is_ticker_stop (e : Event) : bool :=
  match e with CallTickerStop => true | _ => false end.

(** The number of events of a kind. *)
Definition count (p : Event -> bool) (evs : list Event) : nat :=
  length (filter p evs).

(** ** Go's [time.ParseDuration]

    The standard library function behind [time_ParseDuration], following
    its source: an optional sign, then one or more groups of a decimal
    number and a unit. Go computes the contribution of a fraction in
    [float64]; here it is the exact quotient, rounded down. The two agree
    whenever the float computation is exact (a few fractional digits, as
    in every duration evaluated below) and can differ by a nanosecond
    otherwise: for 0.3333333333333333333h the quotient gives
    1199999999999 where Go gives 1200000000000. No theorem below depends
    on the value of a fraction: the engine takes [time_ParseDuration] from
    the world, and this function only answers for the simulated one.
    [quote] adds the surrounding quotation marks without escaping. *)
Module gotime.

Definition is_digit (c : ascii) : bool :=
  (48 <=? Z.of_N (N_of_ascii c)) && (Z.of_N (N_of_ascii c) <=? 57).

Definition digit (c : ascii) : Z := Z.of_N (N_of_ascii c) - 48.

Definition quote (s : string) : string :=
  String (ascii_of_nat 34) (s +:+ String (ascii_of_nat 34) EmptyString).

Definition invalid (orig : string) : error :=
  ErrorString ("time: invalid duration " +:+ quote orig).

(** [leadingInt]: the leading digits of [s] as a number and the rest;
    [None] on overflow. *)
Fixpoint leadingInt_from (x : Z) (s : string) : option (Z * string) :=
  match s with
  | String c s' =>
      if is_digit c then
        if x >? 2 ^ 63 / 10 then None
        else
          let x' := x * 10 + digit c in
          if x' >? 2 ^ 63 then None else leadingInt_from x' s'
      else Some (x, s)
  | EmptyString => Some (x, s)
  end.

Definition leadingInt (s : string) : option (Z * string) := leadingInt_from 0 s.

(** [leadingFraction]: the digits after the point as a number [x] with
    its [scale] (a power of ten), and the rest; digits beyond the range
    are skipped. *)
Fixpoint leadingFraction_from (x scale : Z) (overflow : bool) (s : string)
  : Z * Z * string :=
  match s with
  | String c s' =>
      if is_digit c then
        if overflow then leadingFraction_from x scale true s'
        else if x >? (2 ^ 63 - 1) / 10 then leadingFraction_from x scale true s'
        else
          let y := x * 10 + digit c in
          if y >? 2 ^ 63 then leadingFraction_from x scale true s'
          else leadingFraction_from y (scale * 10) false s'
      else (x, scale, s)
  | EmptyString => (x, scale, s)
  end.

Definition leadingFraction (s : string) : Z * Z * string :=
  leadingFraction_from 0 1 false s.

(** The unit: everything up to the next digit or point. *)
Fixpoint span_unit (s : string) : string * string :=
  match s with
  | String c s' =>
      if Ascii.eqb c "."%char || is_digit c then (EmptyString, s)
      else let '(u, rest) := span_unit s' in (String c u, rest)
  | EmptyString => (EmptyString, EmptyString)
  end.

Definition micro_sign : string := String (ascii_of_nat 194) (String (ascii_of_nat 181) "s").
Definition greek_mu : string := String (ascii_of_nat 206) (String (ascii_of_nat 188) "s").

Definition unitMap (u : string) : option Z :=
  if String.eqb u "ns" then Some 1
  else if String.eqb u "us" then Some 1000
  else if String.eqb u micro_sign then Some 1000
  else if String.eqb u greek_mu then Some 1000
  else if String.eqb u "ms" then Some 1000000
  else if String.eqb u "s" then Some 1000000000
  else if String.eqb u "m" then Some 60000000000
  else if String.eqb u "h" then Some 3600000000000
  else None.

(** The loop over the groups; every round consumes at least the unit,
    so the length of the input bounds the number of rounds. *)
Fixpoint groups (rounds : nat) (orig : string) (d : Z) (s : string) : error + Z :=
  match rounds, s with
  | _, EmptyString => inr d
  | O, _ => inl (invalid orig)
  | S rounds', String c _ =>
      if negb (Ascii.eqb c "."%char || is_digit c) then inl (invalid orig)
      else
        match leadingInt s with
        | None => inl (invalid orig)
        | Some (v, s1) =>
            let pre := negb (String.length s =? String.length s1)%nat in
            let '(f, scale, s2, post) :=
              match s1 with
              | String "." s1' =>
                  let '(f, scale, s2) := leadingFraction s1' in
                  (f, scale, s2, negb (String.length s1' =? String.length s2)%nat)
              | _ => (0, 1, s1, false)
              end in
            if negb pre && negb post then inl (invalid orig)
            else
              let '(u, s3) := span_unit s2 in
              if String.eqb u EmptyString then
                inl (ErrorString ("time: missing unit in duration " +:+ quote orig))
              else
                match unitMap u with
                | None =>
                    inl (ErrorString ("time: unknown unit " +:+ quote u
                                      +:+ " in duration " +:+ quote orig))
                | Some unit =>
                    if v >? 2 ^ 63 / unit then inl (invalid orig)
                    else
                      let v1 := v * unit in
                      let v2 := if 0 <? f then v1 + f * unit / scale else v1 in
                      if v2 >? 2 ^ 63 then inl (invalid orig)
                      else
                        let d' := d + v2 in
                        if d' >? 2 ^ 63 then inl (invalid orig)
                        else groups rounds' orig d' s3
                end
      end
  end.

Definition ParseDuration (s : string) : error + Duration :=
  let '(neg, s1) :=
    match s with
    | String "-" s' => (true, s')
    | String "+" s' => (false, s')
    | _ => (false, s)
    end in
  if String.eqb s1 "0" then inr 0
  else if String.eqb s1 EmptyString then inl (invalid s)
  else
    match groups (String.length s1) s 0 s1 with
    | inl err => inl err
    | inr d =>
        if neg then inr (- d)
        else if d >? 2 ^ 63 - 1 then inl (invalid s)
        else inr d
    end.

End gotime.

(** ** A simulated world

    A deterministic implementation of [Extern], used to run the engine on
    concrete scenarios: a clock, an instant at which the context is
    cancelled, a ticker, a set of existing paths, a scripted hosting
    service and a transport that fails for chosen paths. Calls that take
    the context fail at once when it is cancelled and are cut short when it
    is cancelled while they run; clone and pull take no context and run to
    their end. *)
Module sim.

Record World := mkWorld {
  clock : Z;
  cancel_at : option Z;
  tick_due : Z;
  prefer_tick : bool;
  fs : gset string;
  listing : error + github.RepositoriesSearchResult;
  heads : Z -> string -> option string;
  latency : Z;
  broken : gset string
}.

Definition set_clock (t : Z) (w : World) : World :=
  mkWorld t (cancel_at w) (tick_due w) (prefer_tick w) (fs w) (listing w)
          (heads w) (latency w) (broken w).

Definition set_tick_due (t : Z) (w : World) : World :=
  mkWorld (clock w) (cancel_at w) t (prefer_tick w) (fs w) (listing w)
          (heads w) (latency w) (broken w).

Definition add_path (p : string) (w : World) : World :=
  mkWorld (clock w) (cancel_at w) (tick_due w) (prefer_tick w) ({[p]} ∪ fs w)
          (listing w) (heads w) (latency w) (broken w).

Definition done (w : World) : bool :=
  match cancel_at w with
  | Some tc => tc <=? clock w
  | None => false
  end.

Definition canceled : error := ErrorString "context canceled".

(** A round trip under the context. *)
Definition round_trip {A} (answer : error + A) (w : World) : (error + A) * World :=
  if done w then (inl canceled, w)
  else
    let t := clock w + latency w in
    match cancel_at w with
    | Some tc => if tc <=? t then (inl canceled, set_clock tc w) else (answer, set_clock t w)
    | None => (answer, set_clock t w)
    end.

Definition elapse (w : World) : World := set_clock (clock w + latency w) w.

Definition Search (q : string) (w : World) := round_trip (listing w) w.

Definition GetBranch (owner name branch : string) (follow : bool) (w : World) :=
  round_trip
    match heads w (clock w) (owner +:+ "/" +:+ name) with
    | Some sha => inr (github.mkBranch (Some (github.mkCommit (Some sha))))
    | None => inl (ErrorString "404 Not Found")
    end w.

Definition Stat (path : string) (w : World) : option error * World :=
  (if bool_decide (path ∈ fs w) then None else Some (PathErrorNotExist path), w).

Definition PlainClone (path : string) (bare : bool) (o : git.CloneOptions) (w : World)
  : option error * World :=
  if bool_decide (path ∈ fs w) then (Some (ErrorString "repository already exists"), w)
  else if bool_decide (path ∈ broken w) then
    (Some (ErrorString "authentication required"), elapse w)
  else (None, add_path path (elapse w)).

Definition PlainOpen (path : string) (w : World) : (error + git.Repository) * World :=
  if bool_decide (path ∈ fs w) then (inr (git.mkRepository path), w)
  else (inl (ErrorString "repository does not exist"), w).

Definition Worktree (p : git.Repository) (w : World) : (error + git.Worktree) * World :=
  (inr (git.mkWorktree (git.repository_path p)), w).

Definition Pull (wt : git.Worktree) (o : git.PullOptions) (w : World)
  : option error * World :=
  if bool_decide (git.worktree_path wt ∈ broken w) then
    (Some (ErrorString "authentication required"), elapse w)
  else (None, elapse w).

(** The first tick is due one period after the ticker is made. *)
Definition NewTicker (d : Duration) (w : World) : Ticker * World :=
  (mkTicker d, set_tick_due (clock w + d) w).

Definition ready (tk : Ticker) (w : World) : bool := tick_due w <=? clock w.

(** Taking the buffered tick; ticks that fell due while it was buffered
    were dropped, and the next one is due at the next multiple of the
    period. *)
Definition recv (tk : Ticker) (w : World) : World :=
  let d := ticker_period tk in
  set_tick_due (tick_due w + d * ((clock w - tick_due w) / d + 1)) w.

Definition pick (w : World) : SelectCase * World :=
  (if prefer_tick w then SelTick else SelDone, w).

(** Waiting for the earlier of the next tick and the cancellation. *)
Definition wait (tk : Ticker) (w : World) : option (SelectCase * World) :=
  let tick := Some (SelTick, recv tk (set_clock (tick_due w) w)) in
  match cancel_at w with
  | Some tc =>
      if tc <? tick_due w then Some (SelDone, set_clock tc w)
      else if (tc =? tick_due w) && negb (prefer_tick w) then Some (SelDone, set_clock tc w)
      else tick
  | None => tick
  end.

#[global] Instance extern : Extern World := {|
  Search_Repositories := Search;
  Repositories_GetBranch := GetBranch;
  os_Stat := Stat;
  git_PlainClone := PlainClone;
  git_PlainOpen := PlainOpen;
  Repository_Worktree := Worktree;
  Worktree_Pull := Pull;
  time_ParseDuration := gotime.ParseDuration;
  time_NewTicker := NewTicker;
  Ticker_Stop := fun _ w => w;
  now := clock;
  ctx_done := done;
  chan_ready := ready;
  chan_recv := recv;
  pick_ready := pick;
  park := wait
|}.

End sim.

(** ** Scenarios in the simulated world *)
Module scenario.

Definition opts (interval : string) : SyncerOptions :=
  mkOptions "token" "alice" "alice" "godoc" interval "/go".

Definition listed (owner name : string) : option github.Repository :=
  Some (github.mkRepository
          (Some (github.mkUser (Some owner))) (Some name)
          (Some (owner +:+ "/" +:+ name))
          (Some ("https://github.com/" +:+ owner +:+ "/" +:+ name +:+ ".git"))
          (Some "main")).

Definition two_repos : error + github.RepositoriesSearchResult :=
  inr (github.mkResult (Some 2) [listed "alice" "a"; listed "alice" "b"]).

(** Repository a stays at c1; b moves from c2 to c3 at time 400. *)
Definition heads (t : Z) (k : string) : option string :=
  if String.eqb k "alice/a" then Some "c1"
  else if String.eqb k "alice/b" then Some (if t <? 400 then "c2" else "c3")
  else None.

(** A world at time 0 with nothing mirrored; every call takes 10. *)
Definition world_with (cancel : option Z)
    (listing : error + github.RepositoriesSearchResult) (broken : gset string)
  : sim.World :=
  sim.mkWorld 0 cancel 0 true ∅ listing heads 10 broken.

Definition world0 (cancel : option Z) : sim.World := world_with cancel two_repos ∅.

(** The transport fails for the mirror of a. *)
Definition broken_a : sim.World :=
  world_with None two_repos {["/go/src/github.com/alice/a"]}.

(** The search fails. *)
Definition unavailable : sim.World :=
  world_with None (inl (ErrorString "503 Service Unavailable")) ∅.

Definition fields (owner name : string) : Listed :=
  mkListed owner name
    ("https://github.com/" +:+ owner +:+ "/" +:+ name +:+ ".git")
    (owner +:+ "/" +:+ name) "main".

Definition branch_at (sha : string) : github.Branch :=
  github.mkBranch (Some (github.mkCommit (Some sha))).

Definition start (interval : string) (w : sim.World) : State sim.World :=
  mkState (New (opts interval)) w [].

(** Two repositories whose owner or name contains a slash. *)
Definition slash_owner : Repo :=
  mkRepo "a/b" "c" "https://host/one.git" "s1" "/go/src/github.com/a/b/c".

Definition slash_name (sha : string) : Repo :=
  mkRepo "b" "c/a" "https://host/two.git" sha "/go/src/github.com/b/c/a".

End scenario.

(** ** The configuration

    [config.New] fills a [Config] from the environment through
    [envconfig.Process] and then defaults the token user. The struct tags
    below are those of the source, spelled as they are there. [Process] is
    the loop of the library (kelseyhightower/envconfig), over the fields in
    the order of their declaration: look the variable up, fall back to the
    [default] tag, fail on a missing variable that is [required] and has no
    default, skip a missing variable otherwise, and store the value; the
    first failure ends the loop. The parsing of integers ([strconv.ParseInt]
    with base 0) is a parameter. *)
Module config.

Record Config := mkConfig {
  GithubToken : string;
  GithubTokenUser : string;
  GithubUser : string;
  GithubPollInterval : string;
  GithubTopic : string;
  GodocPort : Z;
  GodocRoot : string;
  GodocIndexInterval : string;
  LogLevel : string
}.

(** [&Config{}] *)
Definition zero : Config := mkConfig "" "" "" "" "" 0 "" "" "".

(** A field as reflection presents it: its tags and how to set it from the
    text of a variable ([None] when the text does not parse). *)
Record Field := mkField {
  tags : list (string * string);
  set : string -> Config -> option Config
}.

Definition set_string (f : string -> Config -> Config) : string -> Config -> option Config :=
  fun v c => Some (f v c).

Definition fields (ParseInt : string -> option Z) : list Field :=
  [ mkField [("envconfig", "GITHUB_TOKEN"); ("required", "true")]
      (set_string (fun v c =>
         mkConfig v (GithubTokenUser c) (GithubUser c) (GithubPollInterval c)
                  (GithubTopic c) (GodocPort c) (GodocRoot c) (GodocIndexInterval c)
                  (LogLevel c)));
    mkField [("envconfig", "GITHUB_TOKEN_USER"); ("default", "")]
      (set_string (fun v c =>
         mkConfig (GithubToken c) v (GithubUser c) (GithubPollInterval c)
                  (GithubTopic c) (GodocPort c) (GodocRoot c) (GodocIndexInterval c)
                  (LogLevel c)));
    mkField [("envconfig", "GITHUB_USER"); ("requrired", "true")]
      (set_string (fun v c =>
         mkConfig (GithubToken c) (GithubTokenUser c) v (GithubPollInterval c)
                  (GithubTopic c) (GodocPort c) (GodocRoot c) (GodocIndexInterval c)
                  (LogLevel c)));
    mkField [("envconfig", "GITHUB_POLL_INTERVAL"); ("default", "5m")]
      (set_string (fun v c =>
         mkConfig (GithubToken c) (GithubTokenUser c) (GithubUser c) v
                  (GithubTopic c) (GodocPort c) (GodocRoot c) (GodocIndexInterval c)
                  (LogLevel c)));
    mkField [("envconfig", "GITHUB_TOPIC"); ("default", "godoc")]
      (set_string (fun v c =>
         mkConfig (GithubToken c) (GithubTokenUser c) (GithubUser c)
                  (GithubPollInterval c) v (GodocPort c) (GodocRoot c)
                  (GodocIndexInterval c) (LogLevel c)));
    mkField [("envconfig", "GODOC_PORT"); ("default", "6060")]
      (fun v c =>
         n ← ParseInt v;
         Some (mkConfig (GithubToken c) (GithubTokenUser c) (GithubUser c)
                        (GithubPollInterval c) (GithubTopic c) n (GodocRoot c)
                        (GodocIndexInterval c) (LogLevel c)));
    mkField [("envconfig", "GODOC_ROOT"); ("default", "/usr/local/go")]
      (set_string (fun v c =>
         mkConfig (GithubToken c) (GithubTokenUser c) (GithubUser c)
                  (GithubPollInterval c) (GithubTopic c) (GodocPort c) v
                  (GodocIndexInterval c) (LogLevel c)));
    mkField [("envconfig", "GODOC_INDEX_INTERVAL"); ("default", "1m")]
      (set_string (fun v c =>
         mkConfig (GithubToken c) (GithubTokenUser c) (GithubUser c)
                  (GithubPollInterval c) (GithubTopic c) (GodocPort c) (GodocRoot c)
                  v (LogLevel c)));
    mkField [("envconfig", "LOG_LEVEL"); ("default", "INFO")]
      (set_string (fun v c =>
         mkConfig (GithubToken c) (GithubTokenUser c) (GithubUser c)
                  (GithubPollInterval c) (GithubTopic c) (GodocPort c) (GodocRoot c)
                  (GodocIndexInterval c) v)) ].

(** [Tags.Get]: the value of a tag, empty when the tag is absent. *)
Fixpoint Get (tags : list (string * string)) (name : string) : string :=
  match tags with
  | [] => ""
  | (k, v) :: tags' => if String.eqb k name then v else Get tags' name
  end.

(** [isTrue]: what [strconv.ParseBool] reads as true. *)
Definition isTrue (s : string) : bool :=
  bool_decide (s ∈ ["1"; "t"; "T"; "TRUE"; "true"; "True"]).

(** [envconfig.Process] over the variables [env]. *)
Fixpoint Process (env : gmap string string) (infos : list Field) (c : Config)
  : Config * option error :=
  match infos with
  | [] => (c, None)
  | info :: infos' =>
      let key := Get (tags info) "envconfig" in
      let found := env !! key in
      let def := Get (tags info) "default" in
      let req := Get (tags info) "required" in
      match found with
      | None =>
          if String.eqb def "" then
            if isTrue req then
              (c, Some (ErrorString ("required key " +:+ key +:+ " missing value")))
            else Process env infos' c
          else
            match set info def c with
            | Some c' => Process env infos' c'
            | None => (c, Some (ErrorString ("envconfig.Process: assigning " +:+ key)))
            end
      | Some value =>
          match set info value c with
          | Some c' => Process env infos' c'
          | None => (c, Some (ErrorString ("envconfig.Process: assigning " +:+ key)))
          end
      end
  end.

(** [config.New]: the error of [Process] is dropped. *)
Definition New (ParseInt : string -> option Z) (env : gmap string string) : Config :=
  let c := (Process env (fields ParseInt) zero).1 in
  if String.eqb (GithubTokenUser c) "" then
    mkConfig (GithubToken c) (GithubUser c) (GithubUser c) (GithubPollInterval c)
             (GithubTopic c) (GodocPort c) (GodocRoot c) (GodocIndexInterval c)
             (LogLevel c)
  else c.

(** A reader of decimal numerals, standing in for [strconv.ParseInt] where
    a concrete one is needed. *)
Definition decimal (s : string) : option Z :=
  match gotime.leadingInt s with
  | Some (n, EmptyString) => if String.eqb s "" then None else Some n
  | _ => None
  end.

End config.

(** ** Further scenarios *)
Module cases.

Definition alice_a (sha : string) : Repo :=
  observed (scenario.opts "5m") (scenario.fields "alice" "a") sha.

Definition alice_b (sha : string) : Repo :=
  observed (scenario.opts "5m") (scenario.fields "alice" "b") sha.

(** An entry without owner. *)
Definition ownerless : option github.Repository :=
  Some (github.mkRepository None (Some "x") (Some "alice/x")
          (Some "https://github.com/alice/x.git") (Some "main")).

(** A listing whose second entry has no owner. *)
Definition holed : github.RepositoriesSearchResult :=
  github.mkResult (Some 3)
    [scenario.listed "alice" "a"; ownerless; scenario.listed "alice" "b"].

Definition holed_world : sim.World := scenario.world_with None (inr holed) ∅.

(** A state whose syncer retains a at commit c1. *)
Definition knows_a : State sim.World :=
  mkState (update (New (scenario.opts "5m")) (alice_a "c1")).2 (scenario.world0 None) [].

(** The mirror of a exists, and its transport fails. *)
Definition stale_a : sim.World :=
  sim.add_path "/go/src/github.com/alice/a" scenario.broken_a.

(** An environment with a token, a user and a poll interval. *)
Definition env : gmap string string :=
  {[ "GITHUB_TOKEN" := "t0k3n"; "GITHUB_USER" := "alice";
     "GITHUB_POLL_INTERVAL" := "10m" ]}.

End cases.

(** ** Properties of the change detector *)

Lemma update_unknown (rs : Syncer) (r : Repo) :
  repos rs !! key r = None ->
  update rs r = (true, set_repos rs (<[key r := r]> (repos rs))).
Proof. intros H. unfold update. by rewrite H. Qed.

Lemma update_same_sha (rs : Syncer) (r old : Repo) :
  repos rs !! key r = Some old ->
  CommitSHA r = CommitSHA old ->
  update rs r = (false, rs).
Proof.
  intros H Hsha. unfold update. rewrite H.
  by rewrite (proj2 (String.eqb_eq _ _) Hsha).
Qed.

Lemma update_other_sha (rs : Syncer) (r old : Repo) :
  repos rs !! key r = Some old ->
  CommitSHA r <> CommitSHA old ->
  update rs r = (true, set_repos rs (<[key r := r]> (repos rs))).
Proof.
  intros H Hsha. unfold update. rewrite H.
  by rewrite (proj2 (String.eqb_neq _ _) Hsha).
Qed.

Lemma observe_repeat_known (rs : Syncer) (r : Repo) (n : nat) :
  repos rs !! key r = Some r ->
  observe rs (replicate n r) = (replicate n false, rs).
Proof.
  intros H. induction n as [|n IH]; simpl; [done|].
  rewrite (update_same_sha rs r r H eq_refl). by rewrite IH.
Qed.

Lemma New_keyed (o : SyncerOptions) : keyed (New o).
Proof. intros k r Hl. simpl in Hl. by rewrite lookup_empty in Hl. Qed.

(** [update] keeps every record under its own key. *)
Lemma update_keyed (rs : Syncer) (r : Repo) :
  keyed rs -> keyed (update rs r).2.
Proof.
  intros Hk. unfold update.
  assert (Hins : keyed (set_repos rs (<[key r := r]> (repos rs)))).
  { intros k r' Hl. simpl in Hl.
    destruct (decide (key r = k)) as [<-|Hne].
    - rewrite lookup_insert_eq in Hl. by injection Hl as <-.
    - rewrite lookup_insert_ne in Hl by done. by apply Hk. }
  destruct (repos rs !! key r) as [old|]; [|exact Hins].
  by destruct (String.eqb _ _).
Qed.

(** On plain names the key determines owner and name. *)
Lemma key_injective_plain (n1 o1 n2 o2 : string) :
  plain n1 = true -> plain n2 = true ->
  n1 +:+ "/" +:+ o1 = n2 +:+ "/" +:+ o2 ->
  n1 = n2 /\ o1 = o2.
Proof.
  revert n2. induction n1 as [|c n1 IH]; intros [|c2 n2] H1 H2 Heq;
    cbv [String.append] in Heq; fold String.append in Heq; simpl in H1, H2.
  - by injection Heq as ->.
  - injection Heq as <- _. by rewrite Ascii.eqb_refl in H2.
  - injection Heq as -> _. by rewrite Ascii.eqb_refl in H1.
  - injection Heq as -> Heq.
    apply andb_prop in H1 as [_ H1]. apply andb_prop in H2 as [_ H2].
    destruct (IH n2 H1 H2 Heq) as [-> ->]. done.
Qed.

(** Read on pairs of owner and name: when the retained records sit under
    their own keys, all names are plain and no retained record has the
    owner and name of the observation, the observation is new. *)
Lemma update_unknown_pair (rs : Syncer) (r : Repo) :
  keyed rs ->
  plain (Name r) = true ->
  (forall k r', repos rs !! k = Some r' ->
                plain (Name r') = true /\ (Owner r', Name r') <> (Owner r, Name r)) ->
  update rs r = (true, set_repos rs (<[key r := r]> (repos rs))).
Proof.
  intros Hk Hplain Hfresh. apply update_unknown.
  destruct (repos rs !! key r) as [r'|] eqn:Hl; [|done].
  destruct (Hfresh _ _ Hl) as [Hplain' Hne].
  pose proof (Hk _ _ Hl) as Hkey. unfold key in Hkey.
  destruct (key_injective_plain _ _ _ _ Hplain Hplain' Hkey) as [Hn Ho].
  destruct Hne. by rewrite Hn, Ho.
Qed.

(** C1: an observation whose key is not retained is reported as new and is
    inserted; however often the same observation is repeated afterwards,
    every repetition is reported as unchanged and leaves the record set as
    it is. *)
Theorem update_new_exactly_once (rs : Syncer) (r : Repo) (n : nat) :
  repos rs !! key r = None ->
  let rs1 := set_repos rs (<[key r := r]> (repos rs)) in
  update rs r = (true, rs1) /\
  repos rs1 !! key r = Some r /\
  update rs1 r = (false, rs1) /\
  observe rs (replicate (S n) r) = (true :: replicate n false, rs1).
Proof.
  intros H rs1.
  assert (Hin : repos rs1 !! key r = Some r) by apply lookup_insert_eq.
  repeat split.
  - by apply update_unknown.
  - done.
  - by apply (update_same_sha rs1 r r).
  - cbn [replicate observe]. rewrite (update_unknown rs r H).
    fold rs1. by rewrite (observe_repeat_known rs1 r n Hin).
Qed.
(** C2: for an observation whose key is retained, an equal commit SHA is
    reported as unchanged and the syncer stays as it is; a different commit
    SHA is reported as changed, and afterwards the record retained under
    the key is the observation itself, every other key being untouched. *)
Theorem update_known (rs : Syncer) (r old : Repo) :
  repos rs !! key r = Some old ->
  (CommitSHA r = CommitSHA old -> update rs r = (false, rs)) /\
  (CommitSHA r <> CommitSHA old ->
   exists rs',
     update rs r = (true, rs') /\
     repos rs' !! key r = Some r /\
     (CommitSHA <$> repos rs' !! key r) = Some (CommitSHA r) /\
     options rs' = options rs /\
     forall k, k <> key r -> repos rs' !! k = repos rs !! k).
Proof.
  intros H. split; intros Hsha.
  - by apply (update_same_sha rs r old).
  - eexists. split; [by apply (update_other_sha rs r old)|]. simpl.
    rewrite lookup_insert_eq. repeat split.
    intros k Hk. by rewrite lookup_insert_ne.
Qed.

(** C9: the key [Name + "/" + Owner] does not determine the pair of owner
    and name: two repositories that differ in both share the key
    ["c/a/b"], and once the first is retained, a first observation of the
    second is reported as unchanged when the commit SHAs agree, and as
    changed --- replacing the record of the first --- when they differ. *)
Theorem key_not_injective (o : SyncerOptions) :
  let r1 := scenario.slash_owner in
  let rs1 := (update (New o) r1).2 in
  (Owner r1, Name r1) <> (Owner (scenario.slash_name "s1"), Name (scenario.slash_name "s1")) /\
  key r1 = key (scenario.slash_name "s1") /\
  repos rs1 !! key r1 = Some r1 /\
  update rs1 (scenario.slash_name "s1") = (false, rs1) /\
  update rs1 (scenario.slash_name "s2")
    = (true, set_repos rs1 (<[key r1 := scenario.slash_name "s2"]> (repos rs1))) /\
  repos (update rs1 (scenario.slash_name "s2")).2 !! key r1 = Some (scenario.slash_name "s2").
Proof. repeat split; done. Qed.

(** ** Properties of the engine, for every world *)

Section EngineFacts.
Context {W : Type} `{Extern W}.

Lemma events_app (tr1 tr2 : list Entry) :
  events (tr1 ++ tr2) = events tr1 ++ events tr2.
Proof. apply map_app. Qed.

Lemma events_record (e : Event) (σ : State W) :
  events (trace (record e σ)) = events (trace σ) ++ [e].
Proof. unfold record; simpl. by rewrite events_app. Qed.

(** [clone] logs, calls [git.PlainClone] once and returns its error. *)
Lemma clone_runs (r : Repo) (σ : State W) :
  let call := git_PlainClone (LocalPath r) false (clone_options r σ) (world σ) in
  clone r σ =
    Ok call.1
       (set_world call.2
          (record (CallPlainClone (LocalPath r) false (clone_options r σ))
             (record (Log Info "cloning repository" [zap_Any_repo "repo" r]) σ))).
Proof.
  unfold clone, clone_options, mbind, M_bind, log, get_options, extern; simpl.
  by destruct (git_PlainClone _ _ _ _).
Qed.

Lemma clone_events (r : Repo) (σ : State W) :
  exists e σ',
    clone r σ = Ok e σ' /\ rs σ' = rs σ /\
    events (trace σ') =
      events (trace σ)
      ++ [Log Info "cloning repository" [zap_Any_repo "repo" r];
          CallPlainClone (LocalPath r) false (clone_options r σ)].
Proof.
  rewrite clone_runs. eexists _, _. split; [done|]. split; [done|].
  unfold set_world, record; simpl. rewrite !events_app. by rewrite <- !app_assoc.
Qed.

(** [pull] never panics and leaves the syncer alone; after the log and
    [git.PlainOpen] it calls [Worktree] and [Pull], as far as it gets. *)
Lemma pull_runs (r : Repo) (σ : State W) :
  exists e σ' rest,
    pull r σ = Ok e σ' /\ rs σ' = rs σ /\
    events (trace σ') =
      events (trace σ)
      ++ [Log Info "pulling repository" [zap_Any_repo "repo" r];
          CallPlainOpen (LocalPath r)] ++ rest /\
    (rest = [] \/ (exists p, rest = [CallWorktree p]) \/
     (exists p wt, rest = [CallWorktree p; CallPull wt (pull_options σ)])).
Proof.
  unfold pull, mbind, M_bind, mret, M_ret, log, get_options, extern; simpl.
  destruct (git_PlainOpen _ _) as [[err|p] w1]; simpl.
  { eexists _, _, []. repeat split; [|by left].
    unfold set_world, record; simpl. rewrite !events_app. by rewrite <- app_assoc. }
  destruct (Repository_Worktree _ _) as [[err|wt] w2]; simpl.
  { eexists _, _, [CallWorktree p]. repeat split; [|right; left; by eexists].
    unfold set_world, record; simpl. rewrite !events_app. by rewrite <- !app_assoc. }
  destruct (Worktree_Pull _ _ _) as [e w3]; simpl.
  eexists _, _, [CallWorktree p; CallPull wt _].
  repeat split; [|right; right; by eexists _, _].
  unfold set_world, record; simpl. rewrite !events_app. by rewrite <- !app_assoc.
Qed.

Lemma pull_rest_quiet (σ : State W) (rest : list Event) :
  (rest = [] \/ (exists p, rest = [CallWorktree p]) \/
   (exists p wt, rest = [CallWorktree p; CallPull wt (pull_options σ)])) ->
  forallb (fun e => negb (is_clone e)) rest = true /\ filter is_lookup rest = [].
Proof. intros [->|[[p ->]|(p & wt & ->)]]; by split. Qed.

(** [get] after its stat. *)
Lemma get_decides (r : Repo) (σ : State W) :
  let st := os_Stat (LocalPath r) (world σ) in
  get r σ =
    (if os_IsNotExist st.1 then clone r else pull r)
      (set_world st.2 (record (CallStat (LocalPath r)) σ)).
Proof.
  unfold get, mbind, M_bind, extern. simpl.
  by destruct (os_Stat _ _) as [err w1].
Qed.

(** C3: [get] stats the local path and nothing else decides: when the
    stat reports that the path does not exist, [get] is [clone] (one
    [git.PlainClone], no open or pull); in every other case it is
    [pull] of the working copy (a [git.PlainOpen], never a clone). The
    answers of the transport play no part in the choice. *)
Theorem get_clones_iff_absent (r : Repo) (σ : State W) :
  let st := os_Stat (LocalPath r) (world σ) in
  let σ1 := set_world st.2 (record (CallStat (LocalPath r)) σ) in
  if os_IsNotExist st.1 then
    get r σ = clone r σ1 /\
    exists e σ',
      get r σ = Ok e σ' /\
      events (trace σ') =
        events (trace σ)
        ++ [CallStat (LocalPath r);
            Log Info "cloning repository" [zap_Any_repo "repo" r];
            CallPlainClone (LocalPath r) false (clone_options r σ)]
  else
    get r σ = pull r σ1 /\
    exists e σ' rest,
      get r σ = Ok e σ' /\
      events (trace σ') =
        events (trace σ)
        ++ [CallStat (LocalPath r);
            Log Info "pulling repository" [zap_Any_repo "repo" r];
            CallPlainOpen (LocalPath r)] ++ rest /\
      forallb (fun e => negb (is_clone e)) rest = true.
Proof.
  intros st σ1.
  pose proof (get_decides r σ) as Hget. simpl in Hget. fold st σ1 in Hget.
  destruct (os_IsNotExist st.1).
  - split; [done|]. rewrite Hget.
    destruct (clone_events r σ1) as (e & σ' & Hc & _ & Htr).
    exists e, σ'. split; [done|].
    rewrite Htr. subst σ1. unfold clone_options, set_world, record; simpl.
    rewrite events_app. by rewrite <- !app_assoc.
  - split; [done|]. rewrite Hget.
    destruct (pull_runs r σ1) as (e & σ' & rest & Hp & _ & Htr & Hrest).
    exists e, σ', rest. split; [done|].
    split; [|by apply (pull_rest_quiet σ1)].
    rewrite Htr. subst σ1. unfold set_world, record; simpl.
    rewrite events_app. by rewrite <- !app_assoc.
Qed.

(** [get] never panics, never touches the syncer and issues no branch
    lookup. *)
Lemma get_runs (r : Repo) (σ : State W) :
  exists e σ' evs,
    get r σ = Ok e σ' /\ rs σ' = rs σ /\
    events (trace σ') = events (trace σ) ++ evs /\
    filter is_lookup evs = [].
Proof.
  rewrite get_decides. simpl.
  set (σ1 := set_world _ _).
  assert (Hσ1 : events (trace σ1) = events (trace σ) ++ [CallStat (LocalPath r)]).
  { subst σ1. unfold set_world. simpl. apply events_record. }
  assert (Hrs_σ1 : rs σ1 = rs σ) by done.
  destruct (os_IsNotExist _).
  - destruct (clone_events r σ1) as (e & σ' & Hc & Hrs & Htr).
    exists e, σ'. eexists. repeat split; [done|by rewrite Hrs| |].
    + rewrite Htr, Hσ1, <- !app_assoc. done.
    + done.
  - destruct (pull_runs r σ1) as (e & σ' & rest & Hp & Hrs & Htr & Hshape).
    exists e, σ'. eexists. repeat split; [done|by rewrite Hrs| |].
    + rewrite Htr, Hσ1, <- !app_assoc. done.
    + apply pull_rest_quiet in Hshape as [_ Hq]. simpl. exact Hq.
Qed.

(** *** The loop body of [sync] *)

Ltac entry Hf :=
  match type of Hf with
  | entry_fields ?repo = Some _ =>
      destruct repo as [[[[[?|]]|] [?|] [?|] [?|] [?|]]|];
      try discriminate Hf; injection Hf as <-
  end.

Ltac branch Hsha :=
  match type of Hsha with
  | head_sha ?b = Some _ =>
      destruct b as [[[[?|]]|]]; try discriminate Hsha; injection Hsha as ->
  end.

(** An entry with a nil pointer makes the cycle panic. *)
Lemma sync_repo_nil (repo : option github.Repository) (σ : State W) :
  entry_fields repo = None ->
  sync_repo repo σ = Panic "invalid memory address or nil pointer dereference" σ.
Proof.
  intros Hf.
  by destruct repo as [[[[[?|]]|] [?|] [?|] [?|] [?|]]|].
Qed.

(** The branch lookup fails: the error is logged and the body is over. *)
Lemma sync_repo_lookup_fails repo f err w1 (σ : State W) :
  entry_fields repo = Some f ->
  Repositories_GetBranch (l_login f) (l_name f) (l_default f) true (world σ)
    = (inl err, w1) ->
  sync_repo repo σ =
    Ok tt (record (Log Error "unable to get commit" [zap_Error err]) (looked_up f w1 σ)).
Proof.
  intros Hf Hb. entry Hf. simpl in Hb.
  unfold sync_repo, mbind, M_bind, extern, get_options; simpl. by rewrite Hb.
Qed.

(** The branch comes back without a commit SHA: the cycle panics. *)
Lemma sync_repo_no_sha repo f b w1 (σ : State W) :
  entry_fields repo = Some f ->
  Repositories_GetBranch (l_login f) (l_name f) (l_default f) true (world σ)
    = (inr b, w1) ->
  head_sha b = None ->
  sync_repo repo σ =
    Panic "invalid memory address or nil pointer dereference" (looked_up f w1 σ).
Proof.
  intros Hf Hb Hsha. entry Hf. simpl in Hb.
  unfold sync_repo, mbind, M_bind, extern, get_options; simpl. rewrite Hb.
  by destruct b as [[[[?|]]|]].
Qed.

(** The change detector answers unchanged: a debug line, no mirror call. *)
Lemma sync_repo_unchanged repo f b sha s w1 (σ : State W) :
  entry_fields repo = Some f ->
  Repositories_GetBranch (l_login f) (l_name f) (l_default f) true (world σ)
    = (inr b, w1) ->
  head_sha b = Some sha ->
  update (rs σ) (observed (options (rs σ)) f sha) = (false, s) ->
  sync_repo repo σ =
    Ok tt (record (Log Debug "repository has not changed"
                     [zap_Any_repo "repo" (observed (options (rs σ)) f sha);
                      zap_Any_string "sha" (Some sha)])
             (set_rs s (looked_up f w1 σ))).
Proof.
  intros Hf Hb Hsha Hu. entry Hf. branch Hsha. simpl in Hb.
  unfold observed in Hu; simpl in Hu.
  unfold sync_repo, mbind, M_bind, extern, get_options, do_update, log; simpl.
  rewrite Hb; simpl. by rewrite Hu.
Qed.

(** The change detector answers new or changed: the record set is
    already updated when [get] is called, and an error of [get] is
    logged. *)
Lemma sync_repo_changed repo f b sha s w1 (σ : State W) :
  entry_fields repo = Some f ->
  Repositories_GetBranch (l_login f) (l_name f) (l_default f) true (world σ)
    = (inr b, w1) ->
  head_sha b = Some sha ->
  let r := observed (options (rs σ)) f sha in
  update (rs σ) r = (true, s) ->
  let σ1 := record (Log Info "processing repository update"
                      [zap_Any_repo "repo" r; zap_Any_string "sha" (Some sha)])
              (set_rs s (looked_up f w1 σ)) in
  sync_repo repo σ =
    match get r σ1 with
    | Ok (Some e) σ2 => Ok tt (record (Log Error "unable to update repository" [zap_Error e]) σ2)
    | Ok None σ2 => Ok tt σ2
    | Panic msg σ2 => Panic msg σ2
    end.
Proof.
  intros Hf Hb Hsha r Hu σ1. entry Hf. branch Hsha. simpl in Hb.
  subst r σ1. unfold observed in *; simpl in *.
  unfold sync_repo, mbind, M_bind, extern, get_options, do_update, log; simpl.
  rewrite Hb; simpl. rewrite Hu; simpl.
  by destruct (get _ _) as [[e|] σ2|msg σ2].
Qed.

Lemma for_each_cons {A} (body : A -> M unit) (x : A) (l : list A) (σ : State W) :
  for_each body (x :: l) σ =
    match body x σ with
    | Ok _ σ' => for_each body l σ'
    | Panic msg σ' => Panic msg σ'
    end.
Proof. done. Qed.

(** [sync] up to the answer of the search. *)
Lemma sync_searched (σ : State W) :
  let q := query (options (rs σ)) in
  let σ1 := set_world (Search_Repositories q (world σ)).2
              (record (CallSearch q)
                 (record (Log Debug "query string" [zap_String "query" q]) σ)) in
  sync σ =
    match (Search_Repositories q (world σ)).1 with
    | inl err => Ok tt (record (Log Error "search failed" [zap_Error err]) σ1)
    | inr result =>
        match github.Total result with
        | Some total =>
            for_each sync_repo (github.Repositories result)
              (record (Log Debug "search" [zap_Int "total" total]) σ1)
        | None => Panic "invalid memory address or nil pointer dereference" σ1
        end
    end.
Proof.
  unfold sync, query, mbind, M_bind, extern, get_options, log; simpl.
  destruct (Search_Repositories _ _) as [[err|result] w1]; simpl; [done|].
  by destruct (github.Total result).
Qed.

(** C4: [clone], [pull] and [get] complete whatever the transport
    answers and leave the syncer, hence the retained records, as they
    found it; and in the loop body the change detector has stored the
    observed record before [get] is called, so that after the body the
    record set is the one the detector produced, whether [get] failed or
    not. *)
Theorem mirror_failure_keeps_record (r : Repo) (σ : State W) :
  (exists e σ', clone r σ = Ok e σ' /\ rs σ' = rs σ) /\
  (exists e σ', pull r σ = Ok e σ' /\ rs σ' = rs σ) /\
  (exists e σ', get r σ = Ok e σ' /\ rs σ' = rs σ) /\
  (forall repo f b sha s w1,
      entry_fields repo = Some f ->
      Repositories_GetBranch (l_login f) (l_name f) (l_default f) true (world σ)
        = (inr b, w1) ->
      head_sha b = Some sha ->
      let r' := observed (options (rs σ)) f sha in
      update (rs σ) r' = (true, s) ->
      let σ1 := record (Log Info "processing repository update"
                          [zap_Any_repo "repo" r'; zap_Any_string "sha" (Some sha)])
                  (set_rs s (looked_up f w1 σ)) in
      repos (rs σ1) !! key r' = Some r' /\
      exists e σ2 σ',
        get r' σ1 = Ok e σ2 /\
        sync_repo repo σ = Ok tt σ' /\
        rs σ2 = s /\ rs σ' = s /\
        repos (rs σ') !! key r' = Some r').
Proof.
  split; [|split; [|split]].
  - destruct (clone_events r σ) as (e & σ' & Hc & Hrs & _). by exists e, σ'.
  - destruct (pull_runs r σ) as (e & σ' & rest & Hp & Hrs & _). by exists e, σ'.
  - destruct (get_runs r σ) as (e & σ' & evs & Hg & Hrs & _). by exists e, σ'.
  - intros repo f b sha s w1 Hf Hb Hsha r' Hu σ1.
    assert (Hin : repos s !! key r' = Some r').
    { unfold update in Hu. destruct (repos (rs σ) !! key r') as [old|].
      - destruct (String.eqb _ _); [done|]. injection Hu as <-.
        apply lookup_insert_eq.
      - injection Hu as <-. apply lookup_insert_eq. }
    split; [exact Hin|].
    destruct (get_runs r' σ1) as (e & σ2 & evs & Hg & Hrs & _).
    rewrite (sync_repo_changed repo f b sha s w1 σ Hf Hb Hsha Hu).
    fold r' σ1. rewrite Hg.
    assert (Hs : rs σ2 = s) by (rewrite Hrs; done).
    destruct e as [err|]; eexists _, σ2, _; (split; [done|]);
      (split; [done|]); (split; [done|]); simpl; rewrite Hs; done.
Qed.

(** C6: when the search fails, [sync] logs the error and ends without a
    single lookup and with the record set untouched; when the branch
    lookup of one repository fails, the loop body logs the error, leaves
    the record set untouched, and the loop goes on with the remaining
    repositories. *)
Theorem sync_failures_contained (σ : State W) :
  (forall err w1,
      Search_Repositories (query (options (rs σ))) (world σ) = (inl err, w1) ->
      exists σ',
        sync σ = Ok tt σ' /\ rs σ' = rs σ /\
        events (trace σ') =
          events (trace σ)
          ++ [Log Debug "query string" [zap_String "query" (query (options (rs σ)))];
              CallSearch (query (options (rs σ)));
              Log Error "search failed" [zap_Error err]]) /\
  (forall repo rest f err w1,
      entry_fields repo = Some f ->
      Repositories_GetBranch (l_login f) (l_name f) (l_default f) true (world σ)
        = (inl err, w1) ->
      let σ' := record (Log Error "unable to get commit" [zap_Error err])
                  (looked_up f w1 σ) in
      sync_repo repo σ = Ok tt σ' /\ rs σ' = rs σ /\
      for_each sync_repo (repo :: rest) σ = for_each sync_repo rest σ').
Proof.
  split.
  - intros err w1 Hs. rewrite sync_searched; simpl. rewrite Hs; simpl.
    eexists. split; [done|]. split; [done|].
    unfold set_world, record; simpl. rewrite !events_app. by rewrite <- !app_assoc.
  - intros repo rest f err w1 Hf Hb σ'.
    pose proof (sync_repo_lookup_fails repo f err w1 σ Hf Hb) as Hr.
    split; [done|]. split; [done|]. by rewrite for_each_cons, Hr.
Qed.

(** *** The poll loop *)

Lemma poll_done (fuel : nat) (tk : Ticker) (σ : State W) (w' : W) :
  select tk (world σ) = Some (SelDone, w') ->
  poll (S fuel) tk σ = Returned None (stop tk (set_world w' (record Select σ))).
Proof. intros Hs. simpl. by rewrite Hs. Qed.

Lemma poll_tick (fuel : nat) (tk : Ticker) (σ : State W) (w' : W) :
  select tk (world σ) = Some (SelTick, w') ->
  poll (S fuel) tk σ =
    match sync (set_world w' (record Select σ)) with
    | Ok _ σ' => poll fuel tk σ'
    | Panic msg σ' => Crashed msg (stop tk σ')
    end.
Proof. intros Hs. simpl. by rewrite Hs. Qed.

(** The loop returns nil or not at all. *)
Lemma poll_returns_nil (fuel : nat) (tk : Ticker) (σ σ' : State W) (err : option error) :
  poll fuel tk σ = Returned err σ' -> err = None.
Proof.
  revert σ. induction fuel as [|fuel IH]; intros σ; simpl; [done|].
  destruct (select tk (world σ)) as [[[] w']|]; [|congruence|done].
  destruct (sync _) as [[] σ1|msg σ1]; [apply IH|done].
Qed.

Lemma Start_armed (fuel : nat) (σ : State W) (d : Duration) :
  time_ParseDuration (GithubPollInterval (options (rs σ))) = inr d ->
  0 < d ->
  Start fuel σ =
    poll fuel (time_NewTicker d (world σ)).1
      (set_world (time_NewTicker d (world σ)).2 (record (CallNewTicker d) σ)).
Proof.
  intros Hp Hd. unfold Start, NewTicker, extern. rewrite Hp.
  destruct (Z.leb_spec d 0) as [?|_]; [lia|].
  by destruct (time_NewTicker d (world σ)).
Qed.

Lemma last_events_record (e : Event) (σ : State W) :
  last (events (trace (record e σ))) = Some e.
Proof. rewrite events_record. apply last_snoc. Qed.

(** After [n] completed cycles the loop is where it would be had it
    started there. *)
Lemma poll_after_cycles (n fuel : nat) (tk : Ticker) (σ σ' : State W) :
  cycles tk n σ σ' -> poll (n + fuel) tk σ = poll fuel tk σ'.
Proof.
  induction 1 as [σ|n σ σ1 σ' w Htick Hsync _ IH]; [done|].
  change (S n + fuel)%nat with (S (n + fuel)).
  by rewrite (poll_tick _ _ _ _ Htick), Hsync.
Qed.

(** Cancellation after any number of cycles: the loop returns nil. *)
Lemma poll_cancelled (n fuel : nat) (tk : Ticker) (σ σ' : State W) (w' : W) :
  cycles tk n σ σ' ->
  select tk (world σ') = Some (SelDone, w') ->
  poll (n + S fuel) tk σ = Returned None (stop tk (set_world w' (record Select σ'))).
Proof.
  intros Hc Hdone. rewrite (poll_after_cycles _ _ _ _ _ Hc). by apply poll_done.
Qed.

(** [pull] returns the error of the first step that fails, and of the
    pull itself when the opening and the work tree succeed. *)
Lemma pull_returns (r : Repo) (σ : State W) :
  exists σ',
    pull r σ =
      Ok match git_PlainOpen (LocalPath r) (world σ) with
         | (inl err, _) => Some err
         | (inr p, w2) =>
             match Repository_Worktree p w2 with
             | (inl err, _) => Some err
             | (inr wt, w3) => (Worktree_Pull wt (pull_options σ) w3).1
             end
         end σ'.
Proof.
  unfold pull, pull_options, mbind, M_bind, mret, M_ret, log, get_options, extern; simpl.
  destruct (git_PlainOpen _ _) as [[err|p] w1]; simpl; [by eexists|].
  destruct (Repository_Worktree _ _) as [[err|wt] w2]; simpl; [by eexists|].
  destruct (Worktree_Pull _ _ _) as [e w3]; simpl. by eexists.
Qed.

(** [get] returns an error exactly when the libraries fail, and then the
    error of the step that failed. *)
Lemma get_fails_iff (r : Repo) (σ : State W) (e : error) :
  (exists σ', get r σ = Ok (Some e) σ') <-> mirror_fails r σ e.
Proof.
  rewrite get_decides. unfold mirror_fails. cbn zeta.
  set (σ1 := set_world _ _).
  destruct (os_IsNotExist _).
  - rewrite clone_runs. cbn zeta.
    change (clone_options r σ1) with (clone_options r σ).
    change (world σ1) with (os_Stat (LocalPath r) (world σ)).2.
    split.
    + by intros (σ' & [= -> _]).
    + intros ->. by eexists.
  - destruct (pull_runs r σ1) as (_ & _ & _ & _ & _).
    destruct (pull_returns r σ1) as (σ' & ->).
    change (pull_options σ1) with (pull_options σ).
    change (world σ1) with (os_Stat (LocalPath r) (world σ)).2.
    destruct (git_PlainOpen _ _) as [[err|p] w2].
    { split; [by intros (? & [= -> _])|intros ->; by eexists]. }
    destruct (Repository_Worktree _ _) as [[err|wt] w3].
    { split; [by intros (? & [= -> _])|intros ->; by eexists]. }
    split; [by intros (? & [= -> _])|intros ->; by eexists].
Qed.

(** C5: [Start] returns an error exactly when the poll interval does not
    parse, and then at once, before anything else has happened; with a
    parseable positive interval, after any number of cycles, it returns nil
    when its select takes the cancellation case; a failed search and a
    failed branch lookup end in an error line of the log and a normal end
    of the cycle or loop body; [get] returns an error exactly when the
    clone, the opening, the work tree or the pull fails, namely that error,
    and the loop body then logs it and ends normally. *)
Theorem Start_error_policy (σ : State W) :
  let interval := GithubPollInterval (options (rs σ)) in
  (forall fuel err σ',
      Start fuel σ = Returned (Some err) σ' ->
      time_ParseDuration interval = inl err /\ σ' = σ) /\
  (forall fuel err,
      time_ParseDuration interval = inl err ->
      Start fuel σ = Returned (Some err) σ) /\
  (forall d n fuel (σ' : State W) w',
      time_ParseDuration interval = inr d ->
      0 < d ->
      let tk := (time_NewTicker d (world σ)).1 in
      let σ0 := set_world (time_NewTicker d (world σ)).2 (record (CallNewTicker d) σ) in
      cycles tk n σ0 σ' ->
      select tk (world σ') = Some (SelDone, w') ->
      Start (n + S fuel) σ
        = Returned None (stop tk (set_world w' (record Select σ')))) /\
  (forall (σc : State W) err w1,
      Search_Repositories (query (options (rs σc))) (world σc) = (inl err, w1) ->
      exists σ',
        sync σc = Ok tt σ' /\
        last (events (trace σ')) = Some (Log Error "search failed" [zap_Error err])) /\
  (forall (σc : State W) repo f err w1,
      entry_fields repo = Some f ->
      Repositories_GetBranch (l_login f) (l_name f) (l_default f) true (world σc)
        = (inl err, w1) ->
      exists σ',
        sync_repo repo σc = Ok tt σ' /\
        last (events (trace σ')) = Some (Log Error "unable to get commit" [zap_Error err])) /\
  (forall (σc : State W) repo f b sha s w1 e σ2,
      entry_fields repo = Some f ->
      Repositories_GetBranch (l_login f) (l_name f) (l_default f) true (world σc)
        = (inr b, w1) ->
      head_sha b = Some sha ->
      let r := observed (options (rs σc)) f sha in
      update (rs σc) r = (true, s) ->
      get r (record (Log Info "processing repository update"
                       [zap_Any_repo "repo" r; zap_Any_string "sha" (Some sha)])
               (set_rs s (looked_up f w1 σc))) = Ok (Some e) σ2 ->
      exists σ',
        sync_repo repo σc = Ok tt σ' /\
        last (events (trace σ')) =
          Some (Log Error "unable to update repository" [zap_Error e])) /\
  (forall (r : Repo) (σg : State W) e,
      (exists σ', get r σg = Ok (Some e) σ') <-> mirror_fails r σg e) /\
  (forall (σc : State W) repo f b sha s w1 e,
      entry_fields repo = Some f ->
      Repositories_GetBranch (l_login f) (l_name f) (l_default f) true (world σc)
        = (inr b, w1) ->
      head_sha b = Some sha ->
      let r := observed (options (rs σc)) f sha in
      update (rs σc) r = (true, s) ->
      mirror_fails r (before_get f sha s w1 σc) e ->
      exists σ',
        sync_repo repo σc = Ok tt σ' /\
        last (events (trace σ')) =
          Some (Log Error "unable to update repository" [zap_Error e])).
Proof.
  intros interval.
  assert (Hlogged : forall (σc : State W) repo f b sha s w1 e σ2,
      entry_fields repo = Some f ->
      Repositories_GetBranch (l_login f) (l_name f) (l_default f) true (world σc)
        = (inr b, w1) ->
      head_sha b = Some sha ->
      let r := observed (options (rs σc)) f sha in
      update (rs σc) r = (true, s) ->
      get r (before_get f sha s w1 σc) = Ok (Some e) σ2 ->
      exists σ',
        sync_repo repo σc = Ok tt σ' /\
        last (events (trace σ')) =
          Some (Log Error "unable to update repository" [zap_Error e])).
  { intros σc repo f b sha s w1 e σ2 Hf Hb Hsha r Hu Hg.
    rewrite (sync_repo_changed repo f b sha s w1 σc Hf Hb Hsha Hu).
    fold r. unfold before_get in Hg. fold r in Hg. rewrite Hg.
    eexists. split; [done|]. apply last_events_record. }
  repeat apply conj.
  - intros fuel err σ' HS. unfold Start in HS. fold interval in HS.
    destruct (time_ParseDuration interval) as [err'|d]; [by injection HS as -> ->|].
    destruct (NewTicker d σ) as [tk σ1|msg σ1]; [|done].
    by apply poll_returns_nil in HS.
  - intros fuel err Hp. unfold Start. fold interval. by rewrite Hp.
  - intros d n fuel σ' w' Hp Hd tk σ0 Hc Hdone.
    rewrite (Start_armed _ _ _ Hp Hd). by apply poll_cancelled.
  - intros σc err w1 Hs. rewrite sync_searched; simpl. rewrite Hs; simpl.
    eexists. split; [done|]. apply last_events_record.
  - intros σc repo f err w1 Hf Hb.
    rewrite (sync_repo_lookup_fails repo f err w1 σc Hf Hb).
    eexists. split; [done|]. apply last_events_record.
  - intros σc repo f b sha s w1 e σ2 Hf Hb Hsha r Hu Hg.
    by apply (Hlogged σc repo f b sha s w1 e σ2).
  - intros r σg e. apply get_fails_iff.
  - intros σc repo f b sha s w1 e Hf Hb Hsha r Hu Hfail.
    apply get_fails_iff in Hfail as [σ2 Hg].
    by apply (Hlogged σc repo f b sha s w1 e σ2).
Qed.

(** C10: when the poll interval parses to a duration that is not
    positive, [Start] neither returns nor reaches its loop: it panics in
    [time.NewTicker], for every bound on the number of iterations. *)
Theorem nonpositive_interval_panics (fuel : nat) (σ : State W) (d : Duration) :
  time_ParseDuration (GithubPollInterval (options (rs σ))) = inr d ->
  d <= 0 ->
  Start fuel σ =
    Crashed "non-positive interval for NewTicker" (record (CallNewTicker d) σ).
Proof.
  intros Hp Hd. unfold Start, NewTicker. rewrite Hp.
  by destruct (Z.leb_spec d 0) as [_|?]; [|lia].
Qed.

(** C7: with a parseable, positive interval [Start] arms the ticker and
    waits: no search, no lookup and no change of the record set precede
    the first select. If that select takes the tick, the clock has
    advanced by at least the interval since [Start] was called, and only
    then does the first cycle run. A scheduler that waits with no tick
    buffered and the context not cancelled, and is woken by the
    cancellation, returns nil from that very select, with no cycle in
    between. *)
Theorem no_poll_before_first_interval (σ : State W) (d : Duration) :
  ticker_contract W ->
  time_ParseDuration (GithubPollInterval (options (rs σ))) = inr d ->
  0 < d ->
  let tk := (time_NewTicker d (world σ)).1 in
  let σ0 := set_world (time_NewTicker d (world σ)).2 (record (CallNewTicker d) σ) in
  (Start 0 σ = Running σ0 /\ rs σ0 = rs σ /\
   events (trace σ0) = events (trace σ) ++ [CallNewTicker d]) /\
  (forall fuel, Start fuel σ = poll fuel tk σ0) /\
  (forall fuel w2,
      select tk (world σ0) = Some (SelTick, w2) ->
      now (world σ) + d <= now w2 /\
      Start (S fuel) σ =
        match sync (set_world w2 (record Select σ0)) with
        | Ok _ σ' => poll fuel tk σ'
        | Panic msg σ' => Crashed msg (stop tk σ')
        end) /\
  (forall fuel tk' (σi : State W) w',
      chan_ready tk' (world σi) = false ->
      ctx_done (world σi) = false ->
      park tk' (world σi) = Some (SelDone, w') ->
      let σ' := stop tk' (set_world w' (record Select σi)) in
      poll (S fuel) tk' σi = Returned None σ' /\
      rs σ' = rs σi /\
      events (trace σ') = events (trace σi) ++ [Select; CallTickerStop]).
Proof.
  intros Hlaw Hp Hd tk σ0.
  assert (HS : forall fuel, Start fuel σ = poll fuel tk σ0)
    by (intros fuel; by apply Start_armed).
  repeat apply conj.
  - by rewrite HS.
  - done.
  - apply events_record.
  - exact HS.
  - intros fuel w2 Hsel. split.
    + apply (Hlaw d (world σ) w2 Hd). exact Hsel.
    + rewrite HS. by apply poll_tick.
  - intros fuel tk' σi w' Hready Hdone Hpark σ'.
    assert (Hsel : select tk' (world σi) = Some (SelDone, w'))
      by (unfold select; by rewrite Hready, Hdone).
    split; [by apply poll_done|]. split; [done|].
    subst σ'. unfold stop, set_world, record; simpl.
    rewrite !events_app. by rewrite <- !app_assoc.
Qed.

(** *** Branch lookups of a cycle *)

Lemma lookups_extend (tr tr' : list Entry) (evs : list Event) :
  events tr' = events tr ++ evs ->
  lookups tr' = lookups tr ++ filter is_lookup evs.
Proof. intros Hev. unfold lookups. by rewrite Hev, filter_app. Qed.

Lemma lookups_record (e : Event) (σ : State W) :
  lookups (trace (record e σ)) = lookups (trace σ) ++ filter is_lookup [e].
Proof. apply lookups_extend, events_record. Qed.

(** With complete answers, the loop body on a complete entry issues its
    branch lookup, and only that one, and completes. *)
Lemma sync_repo_one_lookup repo f (σ : State W) :
  branches_complete W ->
  entry_fields repo = Some f ->
  exists σ',
    sync_repo repo σ = Ok tt σ' /\
    lookups (trace σ') = lookups (trace σ) ++ [lookup_of f].
Proof.
  intros Hcomplete Hf.
  assert (Hl : forall w, lookups (trace (looked_up f w σ))
                         = lookups (trace σ) ++ [lookup_of f])
    by (intros w; apply (lookups_record (lookup_of f))).
  destruct (Repositories_GetBranch (l_login f) (l_name f) (l_default f) true (world σ))
    as [[err|b] w1] eqn:Hb.
  { rewrite (sync_repo_lookup_fails repo f err w1 σ Hf Hb).
    eexists. split; [done|].
    rewrite lookups_record, Hl. simpl. by rewrite app_nil_r. }
  destruct (Hcomplete _ _ _ _ _ _ _ Hb) as [sha Hsha].
  destruct (update (rs σ) (observed (options (rs σ)) f sha)) as [[] s] eqn:Hu.
  - rewrite (sync_repo_changed repo f b sha s w1 σ Hf Hb Hsha Hu).
    set (σ1 := record _ _).
    assert (Hl1 : lookups (trace σ1) = lookups (trace σ) ++ [lookup_of f]).
    { subst σ1. rewrite lookups_record. simpl. rewrite app_nil_r. exact (Hl w1). }
    destruct (get_runs (observed (options (rs σ)) f sha) σ1)
      as (e & σ2 & evs & Hg & _ & Htr & Hq).
    rewrite Hg.
    assert (Hl2 : lookups (trace σ2) = lookups (trace σ) ++ [lookup_of f]).
    { rewrite (lookups_extend _ _ _ Htr), Hq, app_nil_r. exact Hl1. }
    destruct e as [err|]; eexists; (split; [done|]); [|done].
    rewrite lookups_record, Hl2. simpl. by rewrite app_nil_r.
  - rewrite (sync_repo_unchanged repo f b sha s w1 σ Hf Hb Hsha Hu).
    eexists. split; [done|].
    rewrite lookups_record. simpl. rewrite app_nil_r. exact (Hl w1).
Qed.

Lemma for_each_lookups (l : list (option github.Repository)) (σ : State W) :
  branches_complete W ->
  Forall (fun repo => is_Some (entry_fields repo)) l ->
  exists σ',
    for_each sync_repo l σ = Ok tt σ' /\
    lookups (trace σ') = lookups (trace σ) ++ map lookup_of (omap entry_fields l).
Proof.
  intros Hcomplete Hl. revert σ.
  induction Hl as [|repo l [f Hf] _ IH]; intros σ.
  - exists σ. split; [done|]. simpl. by rewrite app_nil_r.
  - destruct (sync_repo_one_lookup repo f σ Hcomplete Hf) as (σ1 & Hr & Hl1).
    destruct (IH σ1) as (σ' & Hrest & Hl').
    exists σ'. rewrite for_each_cons, Hr. split; [done|].
    rewrite Hl', Hl1. simpl. rewrite Hf. simpl. by rewrite <- app_assoc.
Qed.

(** C8, as the code has it: [sync] does not consult the context between
    repositories. Whatever the state of the context, a cycle whose search
    succeeded on complete entries issues the branch lookup of every
    listed repository, in the order of the listing, and completes; the
    cancellation is taken up by the select of [Start] after the cycle,
    and when that select takes the cancellation case [Start] returns
    nil. *)
Theorem cycle_runs_through_listing (σ : State W) result total w1 :
  branches_complete W ->
  Search_Repositories (query (options (rs σ))) (world σ) = (inr result, w1) ->
  github.Total result = Some total ->
  Forall (fun repo => is_Some (entry_fields repo)) (github.Repositories result) ->
  exists σ',
    sync σ = Ok tt σ' /\
    lookups (trace σ') =
      lookups (trace σ) ++ map lookup_of (omap entry_fields (github.Repositories result)) /\
    (forall fuel tk (σ0 : State W) w0 w2,
        select tk (world σ0) = Some (SelTick, w0) ->
        σ = set_world w0 (record Select σ0) ->
        select tk (world σ') = Some (SelDone, w2) ->
        poll (S (S fuel)) tk σ0 =
          Returned None (stop tk (set_world w2 (record Select σ')))).
Proof.
  intros Hcomplete Hs Htotal Hwf.
  pose proof (sync_searched σ) as Hsync. simpl in Hsync.
  rewrite Hs in Hsync; simpl in Hsync. rewrite Htotal in Hsync.
  set (σ1 := record _ _) in Hsync.
  destruct (for_each_lookups (github.Repositories result) σ1 Hcomplete Hwf)
    as (σ' & Hrun & Hl).
  exists σ'. rewrite Hsync. split; [done|]. split.
  - rewrite Hl. f_equal. subst σ1.
    rewrite lookups_record. simpl filter. rewrite app_nil_r.
    match goal with
    | |- context [trace (set_world ?w ?x)] => change (trace (set_world w x)) with (trace x)
    end.
    rewrite !lookups_record. simpl filter. by rewrite !app_nil_r.
  - intros fuel tk σ0 w0 w2 Htick -> Hdone.
    rewrite (poll_tick _ _ _ _ Htick), Hsync, Hrun.
    by apply poll_done.
Qed.

End EngineFacts.

(** ** The simulated world meets the contracts *)

Lemma sim_ticker_contract : ticker_contract sim.World.
Proof.
  intros d w w2 Hd. unfold select. simpl.
  unfold sim.ready, sim.NewTicker, sim.done. simpl.
  destruct (Z.leb_spec (sim.clock w + d) (sim.clock w)) as [?|_]; [lia|].
  destruct (sim.cancel_at w) as [tc|] eqn:Hc.
  - destruct (Z.leb_spec tc (sim.clock w)); [done|].
    unfold sim.wait. simpl. rewrite Hc.
    destruct (tc <? sim.clock w + d); [done|].
    destruct ((tc =? sim.clock w + d) && negb (sim.prefer_tick w)); [done|].
    intros [= <-]. simpl. lia.
  - unfold sim.wait. simpl. rewrite Hc. intros [= <-]. simpl. lia.
Qed.

Lemma sim_branches_complete : branches_complete sim.World.
Proof.
  intros owner name branch follow w w1 b. simpl.
  unfold sim.GetBranch, sim.round_trip.
  destruct (sim.heads w (sim.clock w) (owner +:+ "/" +:+ name)) as [sha|];
    destruct (sim.done w); try done;
    destruct (sim.cancel_at w) as [tc|]; try done;
    try (destruct (tc <=? sim.clock w + sim.latency w); try done);
    intros [= <- _]; by eexists.
Qed.

(** ** The engine in the simulated world *)

(** The scenario of two cycles: in the first, a and b are new and both are
    cloned; in the second, a is unchanged and b, which has moved to c3, is
    pulled. *)
Example two_cycles :
  let o := Start 2 (scenario.start "300ns" (scenario.world0 None)) in
  exists σ,
    o = Running σ /\
    filter is_mirror_call (events (trace σ))
    = [CallPlainClone "/go/src/github.com/alice/a" false
         (git.mkCloneOptions (git.mkAuth "alice" "token") "https://github.com/alice/a.git");
       CallPlainClone "/go/src/github.com/alice/b" false
         (git.mkCloneOptions (git.mkAuth "alice" "token") "https://github.com/alice/b.git");
       CallPlainOpen "/go/src/github.com/alice/b";
       CallPull (git.mkWorktree "/go/src/github.com/alice/b")
         (git.mkPullOptions (git.mkAuth "alice" "token") "origin" 1)] /\
    CommitSHA <$> repos (rs σ) !! "a/alice" = Some "c1" /\
    CommitSHA <$> repos (rs σ) !! "b/alice" = Some "c3".
Proof. eexists. vm_compute. repeat split. Qed.

(** A first observation and three repetitions of it, on a fresh syncer. *)
Lemma update_new_exactly_once_witness :
  let rs := New (scenario.opts "5m") in
  let r := scenario.slash_owner in
  repos rs !! key r = None /\
  observe rs (replicate 4 r)
    = ([true; false; false; false], set_repos rs (<[key r := r]> (repos rs))).
Proof.
  intros rs r.
  assert (Hnew : repos rs !! key r = None) by reflexivity.
  split; [exact Hnew|].
  exact (proj2 (proj2 (proj2 (update_new_exactly_once rs r 3 Hnew)))).
Defined.

(** A retained record observed again with the same and with another commit SHA. *)
Lemma update_known_witness :
  let rs := (update (New (scenario.opts "5m")) (scenario.slash_name "s1")).2 in
  let r := scenario.slash_name "s2" in
  repos rs !! key r = Some (scenario.slash_name "s1") /\
  CommitSHA r <> CommitSHA (scenario.slash_name "s1") /\
  update rs (scenario.slash_name "s1") = (false, rs) /\
  exists rs', update rs r = (true, rs') /\ repos rs' !! key r = Some r.
Proof.
  intros rs r.
  assert (Hold : repos rs !! key r = Some (scenario.slash_name "s1")) by reflexivity.
  assert (Hne : CommitSHA r <> CommitSHA (scenario.slash_name "s1")) by discriminate.
  split; [exact Hold|]. split; [exact Hne|]. split.
  - exact (proj1 (update_known rs (scenario.slash_name "s1") _ Hold) eq_refl).
  - destruct (proj2 (update_known rs r _ Hold) Hne) as (rs' & Hu & Hin & _).
    exists rs'. by split.
Defined.

(** The intervals -1.5h and 0s parse and make [Start] panic. *)
Lemma nonpositive_interval_panics_witness :
  let σ := scenario.start "-1.5h" (scenario.world0 None) in
  let σ' := scenario.start "0s" (scenario.world0 None) in
  (time_ParseDuration "-1.5h" = inr (-5400000000000) /\
   Start 7 σ = Crashed "non-positive interval for NewTicker"
                 (record (CallNewTicker (-5400000000000)) σ)) /\
  (time_ParseDuration "0s" = inr 0 /\
   Start 7 σ' = Crashed "non-positive interval for NewTicker"
                  (record (CallNewTicker 0) σ')).
Proof.
  intros σ σ'. split; (split; [reflexivity|]).
  - apply (nonpositive_interval_panics 7 σ (-5400000000000)); [reflexivity|lia].
  - apply (nonpositive_interval_panics 7 σ' 0); [reflexivity|lia].
Defined.

(** The clone of a fails, and the record of a is retained all the same. *)
Lemma mirror_failure_keeps_record_witness :
  let σ := scenario.start "5m" scenario.broken_a in
  let repo := scenario.listed "alice" "a" in
  let f := scenario.fields "alice" "a" in
  let r := observed (options (rs σ)) f "c1" in
  let s := set_repos (rs σ) (<[key r := r]> (repos (rs σ))) in
  let w1 := sim.set_clock 10 scenario.broken_a in
  let σ1 := record (Log Info "processing repository update"
                      [zap_Any_repo "repo" r; zap_Any_string "sha" (Some "c1")])
              (set_rs s (looked_up f w1 σ)) in
  (entry_fields repo = Some f /\
   Repositories_GetBranch "alice" "a" "main" true (world σ)
     = (inr (scenario.branch_at "c1"), w1) /\
   head_sha (scenario.branch_at "c1") = Some "c1" /\
   update (rs σ) r = (true, s)) /\
  (exists σ2, get r σ1 = Ok (Some (ErrorString "authentication required")) σ2) /\
  (exists σ', sync_repo repo σ = Ok tt σ' /\ repos (rs σ') !! key r = Some r).
Proof.
  intros σ repo f r s w1 σ1.
  assert (Hf : entry_fields repo = Some f) by reflexivity.
  assert (Hb : Repositories_GetBranch (l_login f) (l_name f) (l_default f) true (world σ)
               = (inr (scenario.branch_at "c1"), w1)) by reflexivity.
  assert (Hsha : head_sha (scenario.branch_at "c1") = Some "c1") by reflexivity.
  assert (Hu : update (rs σ) r = (true, s)) by reflexivity.
  split; [by repeat split|]. split.
  - eexists. vm_compute. reflexivity.
  - destruct (proj2 (proj2 (proj2 (mirror_failure_keeps_record r σ)))
               repo f _ "c1" s w1 Hf Hb Hsha Hu)
      as (_ & e & σ2 & σ' & _ & Hrun & _ & _ & Hin).
    exists σ'. by split.
Defined.

(** An interval that does not parse; a cancellation at 400, while the
    scheduler waits after its first cycle; a failed search; a failed branch
    lookup; a clone that fails, the path being absent; and a pull that
    fails, the path being present. *)
Lemma Start_error_policy_witness :
  let σ := scenario.start "five" (scenario.world0 None) in
  let σi := scenario.start "300ns" (scenario.world0 (Some 400)) in
  let σc := scenario.start "5m" scenario.unavailable in
  let σl := scenario.start "5m" (scenario.world0 None) in
  let σb := scenario.start "5m" scenario.broken_a in
  let σp := scenario.start "5m" cases.stale_a in
  let f := scenario.fields "alice" "a" in
  let r := observed (options (rs σb)) f "c1" in
  let s := set_repos (rs σb) (<[key r := r]> (repos (rs σb))) in
  let denied := ErrorString "authentication required" in
  (time_ParseDuration "five" = inl (gotime.invalid "five") /\
   Start 3 σ = Returned (Some (gotime.invalid "five")) σ) /\
  (time_ParseDuration "300ns" = inr 300 /\
   exists σ', Start 2 σi = Returned None σ' /\ sim.clock (world σ') = 400) /\
  (exists σ',
      sync σc = Ok tt σ' /\
      last (events (trace σ'))
        = Some (Log Error "search failed" [zap_Error (ErrorString "503 Service Unavailable")])) /\
  (Repositories_GetBranch "alice" "gone" "main" true (world σl)
     = (inl (ErrorString "404 Not Found"), sim.set_clock 10 (world σl)) /\
   exists σ',
      sync_repo (scenario.listed "alice" "gone") σl = Ok tt σ' /\
      last (events (trace σ'))
        = Some (Log Error "unable to get commit" [zap_Error (ErrorString "404 Not Found")])) /\
  (os_Stat (LocalPath r) (sim.set_clock 10 (world σb))
     = (Some (PathErrorNotExist (LocalPath r)), sim.set_clock 10 (world σb)) /\
   (git_PlainClone (LocalPath r) false
      (clone_options r (before_get f "c1" s (sim.set_clock 10 (world σb)) σb))
      (sim.set_clock 10 (world σb))).1 = Some denied /\
   (exists σ', get r (before_get f "c1" s (sim.set_clock 10 (world σb)) σb)
               = Ok (Some denied) σ') /\
   exists σ',
      sync_repo (scenario.listed "alice" "a") σb = Ok tt σ' /\
      last (events (trace σ'))
        = Some (Log Error "unable to update repository" [zap_Error denied])) /\
  (os_Stat (LocalPath r) (sim.set_clock 10 (world σp))
     = (None, sim.set_clock 10 (world σp)) /\
   (Worktree_Pull (git.mkWorktree (LocalPath r))
      (pull_options (before_get f "c1" s (sim.set_clock 10 (world σp)) σp))
      (sim.set_clock 10 (world σp))).1 = Some denied /\
   (exists σ', get r (before_get f "c1" s (sim.set_clock 10 (world σp)) σp)
               = Ok (Some denied) σ') /\
   exists σ',
      sync_repo (scenario.listed "alice" "a") σp = Ok tt σ' /\
      last (events (trace σ'))
        = Some (Log Error "unable to update repository" [zap_Error denied])).
Proof.
  intros σ σi σc σl σb σp f r s denied.
  assert (Hparse : time_ParseDuration (GithubPollInterval (options (rs σ)))
                   = inl (gotime.invalid "five")) by reflexivity.
  assert (Hparse' : time_ParseDuration (GithubPollInterval (options (rs σi))) = inr 300)
    by reflexivity.
  assert (Hsearch : Search_Repositories (query (options (rs σc))) (world σc)
                    = (inl (ErrorString "503 Service Unavailable"),
                       sim.set_clock 10 (world σc))) by reflexivity.
  assert (Hgone : entry_fields (scenario.listed "alice" "gone")
                  = Some (scenario.fields "alice" "gone")) by reflexivity.
  assert (Hlookup : Repositories_GetBranch "alice" "gone" "main" true (world σl)
                    = (inl (ErrorString "404 Not Found"), sim.set_clock 10 (world σl)))
    by reflexivity.
  assert (Hf : entry_fields (scenario.listed "alice" "a") = Some f) by reflexivity.
  assert (Hsha : head_sha (scenario.branch_at "c1") = Some "c1") by reflexivity.
  assert (Hbb : Repositories_GetBranch (l_login f) (l_name f) (l_default f) true (world σb)
                = (inr (scenario.branch_at "c1"), sim.set_clock 10 (world σb)))
    by reflexivity.
  assert (Hbp : Repositories_GetBranch (l_login f) (l_name f) (l_default f) true (world σp)
                = (inr (scenario.branch_at "c1"), sim.set_clock 10 (world σp)))
    by reflexivity.
  assert (Hub : update (rs σb) (observed (options (rs σb)) f "c1") = (true, s))
    by reflexivity.
  assert (Hup : update (rs σp) (observed (options (rs σp)) f "c1") = (true, s))
    by reflexivity.
  assert (Hclone : mirror_fails r
                     (before_get f "c1" s (sim.set_clock 10 (world σb)) σb) denied)
    by (vm_compute; reflexivity).
  assert (Hpull : mirror_fails r
                    (before_get f "c1" s (sim.set_clock 10 (world σp)) σp) denied)
    by (vm_compute; reflexivity).
  split; [|split; [|split; [|split; [|split]]]].
  - split; [exact Hparse|].
    exact (proj1 (proj2 (Start_error_policy σ)) 3%nat _ Hparse).
  - split; [exact Hparse'|].
    eexists. split.
    + eapply (proj1 (proj2 (proj2 (Start_error_policy σi))) 300 1%nat 0%nat _ _ Hparse').
      * reflexivity.
      * eapply cycles_S; [reflexivity|vm_compute; reflexivity|apply cycles_O].
      * reflexivity.
    + reflexivity.
  - exact (proj1 (proj2 (proj2 (proj2 (Start_error_policy σ)))) σc _ _ Hsearch).
  - split; [exact Hlookup|].
    exact (proj1 (proj2 (proj2 (proj2 (proj2 (Start_error_policy σ)))))
             σl _ _ _ _ Hgone Hlookup).
  - split; [reflexivity|]. split; [vm_compute; reflexivity|]. split.
    + exact (proj2 (proj1 (proj2 (proj2 (proj2 (proj2 (proj2 (proj2
               (Start_error_policy σ))))))) r _ denied) Hclone).
    + exact (proj2 (proj2 (proj2 (proj2 (proj2 (proj2 (proj2 (Start_error_policy σ)))))))
               σb _ f _ "c1" s _ denied Hf Hbb Hsha Hub Hclone).
  - split; [reflexivity|]. split; [vm_compute; reflexivity|]. split.
    + exact (proj2 (proj1 (proj2 (proj2 (proj2 (proj2 (proj2 (proj2
               (Start_error_policy σ))))))) r _ denied) Hpull).
    + exact (proj2 (proj2 (proj2 (proj2 (proj2 (proj2 (proj2 (Start_error_policy σ)))))))
               σp _ f _ "c1" s _ denied Hf Hbp Hsha Hup Hpull).
Defined.

(** A failed search, and a listing whose first repository has no branch to
    look up. *)
Lemma sync_failures_contained_witness :
  let σc := scenario.start "5m" scenario.unavailable in
  let σ := scenario.start "5m" (scenario.world0 None) in
  let gone := scenario.listed "alice" "gone" in
  let f := scenario.fields "alice" "gone" in
  let w1 := sim.set_clock 10 (scenario.world0 None) in
  let σ' := record (Log Error "unable to get commit" [zap_Error (ErrorString "404 Not Found")])
              (looked_up f w1 σ) in
  (Search_Repositories (query (options (rs σc))) (world σc)
     = (inl (ErrorString "503 Service Unavailable"), sim.set_clock 10 (world σc)) /\
   exists σc', sync σc = Ok tt σc' /\ rs σc' = rs σc) /\
  (entry_fields gone = Some f /\
   Repositories_GetBranch "alice" "gone" "main" true (world σ)
     = (inl (ErrorString "404 Not Found"), w1) /\
   rs σ' = rs σ /\
   for_each sync_repo [gone; scenario.listed "alice" "a"] σ
     = for_each sync_repo [scenario.listed "alice" "a"] σ').
Proof.
  intros σc σ gone f w1 σ'.
  assert (Hsearch : Search_Repositories (query (options (rs σc))) (world σc)
                    = (inl (ErrorString "503 Service Unavailable"),
                       sim.set_clock 10 (world σc))) by reflexivity.
  assert (Hf : entry_fields gone = Some f) by reflexivity.
  assert (Hb : Repositories_GetBranch (l_login f) (l_name f) (l_default f) true (world σ)
               = (inl (ErrorString "404 Not Found"), w1)) by reflexivity.
  split.
  - split; [exact Hsearch|].
    destruct (proj1 (sync_failures_contained σc) _ _ Hsearch) as (σc' & Hrun & Hrs & _).
    by exists σc'.
  - split; [exact Hf|]. split; [exact Hb|].
    destruct (proj2 (sync_failures_contained σ) gone [scenario.listed "alice" "a"]
                f _ w1 Hf Hb) as (_ & Hrs & Hgo).
    by split.
Defined.

(** An interval of five minutes. Without cancellation the first select
    takes the tick at five minutes; with a cancellation at 42 the wait ends
    there and [Start] returns nil. *)
Lemma no_poll_before_first_interval_witness :
  let d := 300000000000 in
  let tk := mkTicker d in
  let σt := scenario.start "5m" (scenario.world0 None) in
  let w2 := sim.set_tick_due (d + d) (sim.set_clock d (world σt)) in
  let σ := scenario.start "5m" (scenario.world0 (Some 42)) in
  let σ0 := set_world (sim.set_tick_due d (world σ)) (record (CallNewTicker d) σ) in
  (time_ParseDuration "5m" = inr d /\ 0 < d) /\
  (Start 0 σ = Running σ0 /\ events (trace σ0) = [CallNewTicker d]) /\
  (select tk (sim.set_tick_due d (world σt)) = Some (SelTick, w2) /\
   now (world σt) + d <= now w2) /\
  (chan_ready tk (world σ0) = false /\ ctx_done (world σ0) = false /\
   park tk (world σ0) = Some (SelDone, sim.set_clock 42 (world σ0)) /\
   Start 1 σ = Returned None (stop tk (set_world (sim.set_clock 42 (world σ0))
                                         (record Select σ0)))).
Proof.
  intros d tk σt w2 σ σ0.
  assert (Hparse : time_ParseDuration (GithubPollInterval (options (rs σ))) = inr d)
    by reflexivity.
  assert (Hparse' : time_ParseDuration (GithubPollInterval (options (rs σt))) = inr d)
    by reflexivity.
  assert (Hd : 0 < d) by reflexivity.
  assert (Htick : select tk (sim.set_tick_due d (world σt)) = Some (SelTick, w2))
    by reflexivity.
  assert (Hready : chan_ready tk (world σ0) = false) by reflexivity.
  assert (Hdone : ctx_done (world σ0) = false) by reflexivity.
  assert (Hpark : park tk (world σ0) = Some (SelDone, sim.set_clock 42 (world σ0)))
    by reflexivity.
  pose proof (no_poll_before_first_interval σ d sim_ticker_contract Hparse Hd)
    as ((Hidle & _ & Hev) & Harmed & _ & Hcancel).
  pose proof (no_poll_before_first_interval σt d sim_ticker_contract Hparse' Hd)
    as (_ & _ & Hfirst & _).
  split; [by split|]. split; [by split|]. split.
  - split; [exact Htick|]. exact (proj1 (Hfirst 0%nat w2 Htick)).
  - split; [exact Hready|]. split; [exact Hdone|]. split; [exact Hpark|].
    rewrite (Harmed 1%nat).
    exact (proj1 (Hcancel 0%nat tk σ0 _ Hready Hdone Hpark)).
Defined.

(** A cycle during which the context is cancelled looks up both
    repositories. *)
Lemma cycle_runs_through_listing_witness :
  let σ := scenario.start "5m" (scenario.world0 (Some 25)) in
  (Search_Repositories (query (options (rs σ))) (world σ)
     = (scenario.two_repos, sim.set_clock 10 (world σ))) /\
  exists σ',
    sync σ = Ok tt σ' /\
    lookups (trace σ')
      = [CallGetBranch "alice" "a" "main" true; CallGetBranch "alice" "b" "main" true].
Proof.
  intros σ.
  assert (Hsearch : Search_Repositories (query (options (rs σ))) (world σ)
                    = (inr (github.mkResult (Some 2)
                              [scenario.listed "alice" "a"; scenario.listed "alice" "b"]),
                       sim.set_clock 10 (world σ))) by reflexivity.
  split; [exact Hsearch|].
  destruct (cycle_runs_through_listing σ _ 2 _ sim_branches_complete Hsearch eq_refl)
    as (σ' & Hrun & Hl & _).
  { repeat constructor; by eexists. }
  exists σ'. split; [exact Hrun|exact Hl].
Defined.

(** C8, as stated, fails: the context is cancelled at 325, while the first
    repository of the cycle is being cloned; the clone finishes, and at 330,
    with the context done, the loop starts on the second repository and
    issues its branch lookup. *)
Lemma cancelled_cycle_starts_next_repository :
  exists σ',
    Start 2 (scenario.start "300ns" (scenario.world0 (Some 325))) = Returned None σ' /\
    trace σ' !! 10%nat = Some (mkEntry 330 true (CallGetBranch "alice" "b" "main" true)) /\
    ~ stops_at_cancellation (trace σ').
Proof.
  eexists. split; [vm_compute; reflexivity|]. split; [reflexivity|].
  intros Hstop.
  specialize (Hstop (mkEntry 330 true (CallGetBranch "alice" "b" "main" true))).
  assert (Hfalse : true = false); [|discriminate Hfalse].
  apply Hstop; [|reflexivity].
  apply (list_elem_of_lookup_2 _ 10%nat). reflexivity.
Qed.

(** ** More on the change detector *)

(** [update] in one equation: the answer depends on the record retained
    under the key only. *)
Lemma update_cases (rs : Syncer) (r : Repo) :
  update rs r =
    match repos rs !! key r with
    | Some old =>
        if String.eqb (CommitSHA r) (CommitSHA old) then (false, rs)
        else (true, set_repos rs (<[key r := r]> (repos rs)))
    | None => (true, set_repos rs (<[key r := r]> (repos rs)))
    end.
Proof. unfold update. by destruct (repos rs !! key r). Qed.

(** X1: observing the same record twice in a row is always reported as
    unchanged the second time, and the second observation changes nothing,
    whatever was retained before. *)
Theorem update_idempotent (rs : Syncer) (r : Repo) :
  update (update rs r).2 r = (false, (update rs r).2).
Proof.
  rewrite (update_cases rs r).
  destruct (repos rs !! key r) as [old|] eqn:Hl.
  - destruct (String.eqb (CommitSHA r) (CommitSHA old)) eqn:Hsha; simpl.
    + by rewrite update_cases, Hl, Hsha.
    + rewrite update_cases. simpl. rewrite lookup_insert_eq.
      by rewrite String.eqb_refl.
  - simpl. rewrite update_cases. simpl. rewrite lookup_insert_eq.
    by rewrite String.eqb_refl.
Qed.

(** X2: [update] answers unchanged exactly when a record with the observed
    commit SHA is retained under the key, and then the syncer is left as it
    is --- also when the observation differs from the retained record in
    its other fields; when it answers changed the key holds the observation;
    in both cases the key afterwards holds the observed commit SHA. *)
Theorem update_answer (rs : Syncer) (r : Repo) :
  ((update rs r).1 = false <->
   exists old, repos rs !! key r = Some old /\ CommitSHA r = CommitSHA old) /\
  ((update rs r).1 = false -> (update rs r).2 = rs) /\
  ((update rs r).1 = true -> repos (update rs r).2 !! key r = Some r) /\
  CommitSHA <$> repos (update rs r).2 !! key r = Some (CommitSHA r).
Proof.
  rewrite update_cases.
  destruct (repos rs !! key r) as [old|] eqn:Hl.
  - destruct (String.eqb_spec (CommitSHA r) (CommitSHA old)) as [Hsha|Hsha]; simpl.
    + repeat split; try done.
      * intros _. by exists old.
      * by rewrite Hl, Hsha.
    + rewrite lookup_insert_eq. repeat split; try done.
      intros (old' & [= <-] & Heq). done.
  - simpl. rewrite lookup_insert_eq. repeat split; try done.
    intros (old & Hold & _). done.
Qed.

(** What one [update] leaves alone, and what it retains. *)
Lemma update_other_keys (rs : Syncer) (r : Repo) (k : string) :
  k <> key r -> repos (update rs r).2 !! k = repos rs !! k.
Proof.
  intros Hk. rewrite update_cases.
  destruct (repos rs !! key r) as [old|]; [destruct (String.eqb _ _)|];
    simpl; try done; by rewrite lookup_insert_ne.
Qed.

Lemma update_options (rs : Syncer) (r : Repo) :
  options (update rs r).2 = options rs.
Proof.
  rewrite update_cases.
  by destruct (repos rs !! key r) as [old|]; [destruct (String.eqb _ _)|].
Qed.

Lemma update_dom (rs : Syncer) (r : Repo) :
  dom (repos (update rs r).2) = {[key r]} ∪ dom (repos rs).
Proof.
  rewrite update_cases.
  destruct (repos rs !! key r) as [old|] eqn:Hl; [destruct (String.eqb _ _)|]; simpl.
  - apply (elem_of_dom_2 (D := gset string)) in Hl.
    apply set_eq. intros x. rewrite elem_of_union, elem_of_singleton.
    split; [by right|]. by intros [->|?].
  - apply dom_insert_L.
  - apply dom_insert_L.
Qed.

Lemma update_sha_after (rs : Syncer) (r : Repo) :
  CommitSHA <$> repos (update rs r).2 !! key r = Some (CommitSHA r).
Proof.
  rewrite update_cases.
  destruct (repos rs !! key r) as [old|] eqn:Hl.
  - destruct (String.eqb_spec (CommitSHA r) (CommitSHA old)) as [Hsha|Hsha]; simpl.
    + by rewrite Hl, Hsha.
    + by rewrite lookup_insert_eq.
  - simpl. by rewrite lookup_insert_eq.
Qed.

Lemma observe_cons (rs : Syncer) (r : Repo) (obs : list Repo) :
  observe rs (r :: obs) =
    ((update rs r).1 :: (observe (update rs r).2 obs).1, (observe (update rs r).2 obs).2).
Proof.
  simpl. destruct (update rs r) as [b rs1]. simpl. by destruct (observe rs1 obs).
Qed.

Lemma observe_other_keys (rs : Syncer) (obs : list Repo) (k : string) :
  k ∉ key <$> obs -> repos (observe rs obs).2 !! k = repos rs !! k.
Proof.
  revert rs. induction obs as [|r obs IH]; intros rs Hk; [done|].
  rewrite observe_cons. simpl. rewrite fmap_cons in Hk.
  apply not_elem_of_cons in Hk as [Hne Hk].
  rewrite IH by done. by apply update_other_keys.
Qed.

Lemma observe_options (rs : Syncer) (obs : list Repo) :
  options (observe rs obs).2 = options rs.
Proof.
  revert rs. induction obs as [|r obs IH]; intros rs; [done|].
  rewrite observe_cons. simpl. by rewrite IH, update_options.
Qed.

Lemma observe_dom (rs : Syncer) (obs : list Repo) :
  dom (repos (observe rs obs).2) = list_to_set (key <$> obs) ∪ dom (repos rs).
Proof.
  revert rs. induction obs as [|r obs IH]; intros rs.
  - simpl. apply set_eq. intros x. rewrite elem_of_union, elem_of_empty. tauto.
  - rewrite observe_cons. simpl. rewrite IH, update_dom.
    apply set_eq. intros x.
    rewrite !elem_of_union, elem_of_singleton. tauto.
Qed.

Lemma observe_keeps_keyed (rs : Syncer) (obs : list Repo) :
  keyed rs -> keyed (observe rs obs).2.
Proof.
  revert rs. induction obs as [|r obs IH]; intros rs Hk; [done|].
  rewrite observe_cons. simpl. by apply IH, update_keyed.
Qed.

Lemma observe_app (rs : Syncer) (l1 l2 : list Repo) :
  (observe rs (l1 ++ l2)).2 = (observe (observe rs l1).2 l2).2.
Proof.
  revert rs. induction l1 as [|r l1 IH]; intros rs; [done|].
  rewrite <- app_comm_cons, !observe_cons. simpl. apply IH.
Qed.

(** X3: [update] never removes a record and never touches another key or
    the options: after any sequence of observations the retained keys are
    the earlier ones together with the keys observed. *)
Theorem observe_never_forgets (rs : Syncer) (obs : list Repo) :
  dom (repos (observe rs obs).2) = list_to_set (key <$> obs) ∪ dom (repos rs) /\
  options (observe rs obs).2 = options rs /\
  (forall k, k ∉ key <$> obs -> repos (observe rs obs).2 !! k = repos rs !! k).
Proof.
  split; [apply observe_dom|]. split; [apply observe_options|].
  intros k. apply observe_other_keys.
Qed.

(** X4: observations of different keys do not interfere: in either order
    they get the same answers and leave the same syncer. *)
Theorem update_commute (rs : Syncer) (r1 r2 : Repo) :
  key r1 <> key r2 ->
  (update (update rs r1).2 r2).2 = (update (update rs r2).2 r1).2 /\
  (update (update rs r2).2 r1).1 = (update rs r1).1 /\
  (update (update rs r1).2 r2).1 = (update rs r2).1.
Proof.
  intros Hne.
  assert (Hl12 : repos (update rs r1).2 !! key r2 = repos rs !! key r2)
    by (apply update_other_keys; congruence).
  assert (Hl21 : repos (update rs r2).2 !! key r1 = repos rs !! key r1)
    by (by apply update_other_keys).
  rewrite (update_cases (update rs r1).2 r2), (update_cases (update rs r2).2 r1).
  rewrite Hl12, Hl21, (update_cases rs r1), (update_cases rs r2).
  assert (Hcomm : <[key r2 := r2]> (<[key r1 := r1]> (repos rs))
                  = <[key r1 := r1]> (<[key r2 := r2]> (repos rs)))
    by (apply insert_insert_ne; congruence).
  destruct (repos rs !! key r1) as [o1|]; destruct (repos rs !! key r2) as [o2|];
    repeat match goal with
           | |- context [String.eqb ?a ?b] => destruct (String.eqb a b)
           end; simpl; repeat split; unfold set_repos; simpl; by rewrite ?Hcomm.
Qed.

(** X5: starting from [New], whatever is observed, every retained record
    sits under its own key: the record found under a key has the name and
    owner the key was built from. *)
Theorem observe_keyed (o : SyncerOptions) (obs : list Repo) :
  keyed (observe (New o) obs).2.
Proof. apply observe_keeps_keyed, New_keyed. Qed.

(** X6: on a syncer fresh from [New] --- as after every restart --- a
    listing of repositories with pairwise different keys is reported as new
    throughout, and each of them is retained as observed. *)
Theorem observe_fresh_all_new (o : SyncerOptions) (obs : list Repo) :
  NoDup (key <$> obs) ->
  (observe (New o) obs).1 = replicate (length obs) true /\
  forall r, r ∈ obs -> repos (observe (New o) obs).2 !! key r = Some r.
Proof.
  assert (Hgen : forall rs,
             NoDup (key <$> obs) ->
             (forall r, r ∈ obs -> repos rs !! key r = None) ->
             (observe rs obs).1 = replicate (length obs) true /\
             forall r, r ∈ obs -> repos (observe rs obs).2 !! key r = Some r).
  { induction obs as [|r obs IH]; intros rs Hnd Hfresh.
    { split; [done|]. intros r Hr. by apply elem_of_nil in Hr. }
    rewrite fmap_cons in Hnd. apply NoDup_cons in Hnd as [Hnotin Hnd].
    assert (Hr : repos rs !! key r = None) by (apply Hfresh; by left).
    rewrite observe_cons, (update_unknown rs r Hr). simpl.
    destruct (IH (set_repos rs (<[key r := r]> (repos rs))) Hnd) as [Hans Hret].
    { intros r' Hr'. simpl. rewrite lookup_insert_ne.
      - apply Hfresh. by right.
      - intros Heq. apply Hnotin. rewrite Heq. by apply list_elem_of_fmap_2. }
    split; [by rewrite Hans|].
    intros r' [->|Hr']%elem_of_cons; [|by apply Hret].
    rewrite observe_other_keys by done. apply lookup_insert_eq. }
  intros Hnd. apply Hgen; [done|]. intros r _. apply lookup_empty.
Qed.

(** X7: after any sequence of observations, the commit SHA retained under a
    key is that of the latest observation of that key; a key that was not
    observed keeps what it had. *)
Theorem observe_retains_latest_sha (rs : Syncer) (obs : list Repo) (k : string) :
  CommitSHA <$> repos (observe rs obs).2 !! k =
    match last (filter (fun r => key r = k) obs) with
    | Some r => Some (CommitSHA r)
    | None => CommitSHA <$> repos rs !! k
    end.
Proof.
  revert rs. induction obs as [|r obs IH]; intros rs; [done|].
  rewrite observe_cons. cbn [snd]. rewrite IH, filter_cons.
  destruct (decide (key r = k)) as [<-|Hne].
  - rewrite last_cons. destruct (last (filter _ obs)); [done|].
    apply update_sha_after.
  - destruct (last (filter _ obs)); [done|].
    f_equal. apply update_other_keys. congruence.
Qed.

(** ** More on the engine, for every world *)

Section EngineMore.
Context {W : Type} `{Extern W}.

Lemma count_app (p : Event -> bool) (l1 l2 : list Event) :
  count p (l1 ++ l2) = (count p l1 + count p l2)%nat.
Proof. unfold count. by rewrite filter_app, length_app. Qed.

Lemma events_looked_up (f : Listed) (w : W) (σ : State W) :
  events (trace (looked_up f w σ)) = events (trace σ) ++ [lookup_of f].
Proof. apply events_record. Qed.

Lemma events_set_rs (s : Syncer) (σ : State W) :
  events (trace (set_rs s σ)) = events (trace σ).
Proof. done. Qed.

Lemma events_set_world (w : W) (σ : State W) :
  events (trace (set_world w σ)) = events (trace σ).
Proof. done. Qed.

(** The events of [get]: the stat, a log line, the first call of the
    mirror operation and, for a pull, what follows the opening. *)
Lemma get_shape (r : Repo) (σ : State W) :
  exists e σ' l c rest,
    get r σ = Ok e σ' /\ rs σ' = rs σ /\
    events (trace σ') = events (trace σ) ++ [CallStat (LocalPath r); l; c] ++ rest /\
    (exists msg a, l = Log Info msg a) /\
    is_mirror_start c = true /\
    (rest = [] \/ (exists p, rest = [CallWorktree p]) \/
     (exists p wt o, rest = [CallWorktree p; CallPull wt o])).
Proof.
  rewrite get_decides. simpl.
  set (σ1 := set_world _ _).
  assert (Hσ1 : events (trace σ1) = events (trace σ) ++ [CallStat (LocalPath r)])
    by apply events_record.
  destruct (os_IsNotExist _).
  - destruct (clone_events r σ1) as (e & σ' & Hc & Hrs & Htr).
    exists e, σ'. eexists _, _, []. split; [done|]. split; [by rewrite Hrs|].
    split; [rewrite Htr, Hσ1, <- !app_assoc; done|].
    split; [by eexists _, _|]. split; [done|by left].
  - destruct (pull_runs r σ1) as (e & σ' & rest & Hp & Hrs & Htr & Hshape).
    exists e, σ'. eexists _, _, rest. split; [done|]. split; [by rewrite Hrs|].
    split; [rewrite Htr, Hσ1, <- !app_assoc; done|].
    split; [by eexists _, _|]. split; [done|].
    destruct Hshape as [->|[[p ->]|(p & wt & ->)]];
      [by left|right; left; by eexists|right; right; by eexists _, _, _].
Qed.

(** The loop body, in every case: the state it ends in, the events it adds
    and the observation it hands to [update], if any. *)
Lemma sync_repo_shape (repo : option github.Repository) (σ : State W) :
  exists evs obs,
    events (trace (final (sync_repo repo σ))) = events (trace σ) ++ evs /\
    rs (final (sync_repo repo σ)) = (observe (rs σ) obs).2 /\
    forallb is_cycle_event evs = true /\
    count is_search evs = 0%nat /\
    (count is_lookup evs <= 1)%nat /\
    (count is_stat evs <= count is_lookup evs)%nat /\
    count is_mirror_start evs = count is_stat evs.
Proof.
  destruct (entry_fields repo) as [f|] eqn:Hf;
    [|rewrite (sync_repo_nil repo σ Hf); exists [], []; cbn [final observe snd];
      rewrite app_nil_r; repeat split; try done; unfold count; simpl; lia].
  destruct (Repositories_GetBranch (l_login f) (l_name f) (l_default f) true (world σ))
    as [[err|b] w1] eqn:Hb.
  { rewrite (sync_repo_lookup_fails repo f err w1 σ Hf Hb). cbn [final].
    eexists [_; _], []. rewrite events_record, events_looked_up, <- app_assoc.
    repeat split; try done. unfold count; simpl. lia. }
  destruct (head_sha b) as [sha|] eqn:Hsha;
    [|rewrite (sync_repo_no_sha repo f b w1 σ Hf Hb Hsha); cbn [final];
      eexists [_], []; rewrite events_looked_up; repeat split; try done;
      unfold count; simpl; lia].
  destruct (update (rs σ) (observed (options (rs σ)) f sha)) as [[] s] eqn:Hu.
  - rewrite (sync_repo_changed repo f b sha s w1 σ Hf Hb Hsha Hu).
    set (σ1 := record _ _).
    destruct (get_shape (observed (options (rs σ)) f sha) σ1)
      as (e & σ2 & l & c & rest & Hg & Hrs & Htr & (msg & a & ->) & Hc & Hrest).
    rewrite Hg.
    assert (Hσ1 : events (trace σ1)
                  = events (trace σ)
                    ++ [lookup_of f;
                        Log Info "processing repository update"
                          [zap_Any_repo "repo" (observed (options (rs σ)) f sha);
                           zap_Any_string "sha" (Some sha)]]).
    { subst σ1. rewrite events_record, events_set_rs, events_looked_up.
      by rewrite <- app_assoc. }
    assert (Hs : rs σ2 = (observe (rs σ) [observed (options (rs σ)) f sha]).2).
    { rewrite Hrs. simpl. by rewrite Hu. }
    destruct c; try discriminate Hc;
      destruct Hrest as [->|[[g ->]|(g & wt & po & ->)]];
      destruct e as [err|]; cbn [final];
      eexists (_ :: _), [_];
      rewrite ?events_record, Htr, Hσ1, <- ?app_assoc;
      (split; [reflexivity|]); (split; [exact Hs|]);
      repeat split; try done; unfold count; simpl; lia.
  - rewrite (sync_repo_unchanged repo f b sha s w1 σ Hf Hb Hsha Hu). cbn [final].
    eexists [_; _], [observed (options (rs σ)) f sha].
    rewrite events_record, events_set_rs, events_looked_up.
    rewrite <- app_assoc. split; [done|]. split; [cbn [observe]; by rewrite Hu|].
    repeat split; try done. unfold count; simpl. lia.
Qed.

Lemma final_for_each_cons {A} (body : A -> M unit) (x : A) (l : list A) (σ : State W) :
  final (for_each body (x :: l) σ) =
    match body x σ with
    | Ok _ σ' => final (for_each body l σ')
    | Panic _ σ' => σ'
    end.
Proof. rewrite for_each_cons. by destruct (body x σ). Qed.

Lemma final_body (repo : option github.Repository) (σ : State W) :
  match sync_repo repo σ with
  | Ok _ σ' => σ'
  | Panic _ σ' => σ'
  end = final (sync_repo repo σ).
Proof. done. Qed.

(** The loop over the listing, in every case. *)
Lemma for_each_shape (l : list (option github.Repository)) (σ : State W) :
  exists evs obs,
    events (trace (final (for_each sync_repo l σ))) = events (trace σ) ++ evs /\
    rs (final (for_each sync_repo l σ)) = (observe (rs σ) obs).2 /\
    forallb is_cycle_event evs = true /\
    count is_search evs = 0%nat /\
    (count is_lookup evs <= length l)%nat /\
    (count is_stat evs <= count is_lookup evs)%nat /\
    count is_mirror_start evs = count is_stat evs.
Proof.
  revert σ. induction l as [|repo l IH]; intros σ.
  { exists [], []. simpl. rewrite app_nil_r.
    repeat split; try done; unfold count; simpl; lia. }
  destruct (sync_repo_shape repo σ) as (evs1 & obs1 & Htr1 & Hrs1 & Hc1 & Hs1 & Hl1 & Hst1 & Hm1).
  rewrite final_for_each_cons.
  destruct (sync_repo repo σ) as [[] σ1|msg σ1]; cbn [final] in Htr1, Hrs1.
  - destruct (IH σ1) as (evs2 & obs2 & Htr2 & Hrs2 & Hc2 & Hs2 & Hl2 & Hst2 & Hm2).
    exists (evs1 ++ evs2), (obs1 ++ obs2).
    rewrite Htr2, Htr1, Hrs2, Hrs1, observe_app, !count_app, forallb_app, <- app_assoc.
    rewrite Hc1, Hc2, Hs1, Hs2, Hm1, Hm2. repeat split; try done; simpl; lia.
  - exists evs1, obs1. repeat split; try done. simpl. lia.
Qed.

(** One cycle, in every case. *)
Lemma sync_shape (σ : State W) :
  exists evs obs,
    events (trace (final (sync σ))) = events (trace σ) ++ evs /\
    rs (final (sync σ)) = (observe (rs σ) obs).2 /\
    forallb is_cycle_event evs = true /\
    count is_search evs = 1%nat /\
    (count is_lookup evs <=
       match (Search_Repositories (query (options (rs σ))) (world σ)).1 with
       | inr result => length (github.Repositories result)
       | inl _ => 0
       end)%nat /\
    (count is_stat evs <= count is_lookup evs)%nat /\
    count is_mirror_start evs = count is_stat evs.
Proof.
  rewrite sync_searched. cbn zeta.
  set (q := query (options (rs σ))).
  set (σ1 := set_world _ _).
  assert (Hσ1 : events (trace σ1)
                = events (trace σ) ++ [Log Debug "query string" [zap_String "query" q];
                                       CallSearch q]).
  { subst σ1. rewrite events_set_world, !events_record. by rewrite <- app_assoc. }
  assert (Hrs1 : rs σ1 = rs σ) by done.
  destruct (Search_Repositories q (world σ)).1 as [err|result].
  { cbn [final]. eexists [_; _; _], [].
    rewrite events_record, Hσ1, <- app_assoc. repeat split; try done. }
  destruct (github.Total result) as [total|].
  - set (σ2 := record _ σ1).
    destruct (for_each_shape (github.Repositories result) σ2)
      as (evs & obs & Htr & Hrs & Hc & Hs & Hl & Hst & Hm).
    eexists (_ :: _ :: _ :: evs), obs.
    rewrite Htr, Hrs. subst σ2. rewrite events_record, Hσ1, <- !app_assoc.
    split; [done|]. split; [done|].
    change (?a :: ?b :: ?c :: evs) with ([a; b; c] ++ evs).
    rewrite !count_app, forallb_app, Hc, Hs, Hm. repeat split; try done.
    all: unfold count in *; simpl; lia.
  - cbn [final]. eexists [_; _], []. rewrite Hσ1. repeat split; try done.
    all: unfold count; simpl; lia.
Qed.

(** X8: the cost of one cycle, whatever the world answers and also when
    the cycle panics: exactly one search, at most one branch lookup per
    entry of the listing (none when the search failed), at most one stat
    per lookup, and exactly one clone or open per stat. *)
Theorem sync_api_budget (σ : State W) :
  exists evs,
    events (trace (final (sync σ))) = events (trace σ) ++ evs /\
    count is_search evs = 1%nat /\
    (count is_lookup evs <=
       match (Search_Repositories (query (options (rs σ))) (world σ)).1 with
       | inr result => length (github.Repositories result)
       | inl _ => 0
       end)%nat /\
    (count is_stat evs <= count is_lookup evs)%nat /\
    count is_mirror_start evs = count is_stat evs.
Proof.
  destruct (sync_shape σ) as (evs & obs & Htr & _ & _ & Hs & Hl & Hst & Hm).
  by exists evs.
Qed.

(** The poll loop changes the syncer by observations only. *)
Lemma poll_observes (fuel : nat) (tk : Ticker) (σ : State W) :
  exists obs, rs (outcome_state (poll fuel tk σ)) = (observe (rs σ) obs).2.
Proof.
  revert σ. induction fuel as [|fuel IH]; intros σ; [by exists []|].
  simpl. destruct (select tk (world σ)) as [[[] w']|]; try (by exists []).
  destruct (sync_shape (set_world w' (record Select σ))) as (_ & obs1 & _ & Hrs1 & _).
  destruct (sync _) as [[] σ1|msg σ1]; cbn [final] in Hrs1.
  - destruct (IH σ1) as (obs2 & Hrs2). exists (obs1 ++ obs2).
    by rewrite Hrs2, Hrs1, observe_app.
  - by exists obs1.
Qed.

(** X9: a run of [Start] changes the syncer only by handing observations
    to [update]: where the run stands, the syncer is the result of some
    sequence of observations; so the options are the ones it started with,
    no retained key has been dropped, and records stay under their keys. *)
Theorem Start_only_updates (fuel : nat) (σ : State W) :
  let σ' := outcome_state (Start fuel σ) in
  (exists obs, rs σ' = (observe (rs σ) obs).2) /\
  options (rs σ') = options (rs σ) /\
  dom (repos (rs σ)) ⊆ dom (repos (rs σ')) /\
  (keyed (rs σ) -> keyed (rs σ')).
Proof.
  intros σ'.
  assert (Hobs : exists obs, rs σ' = (observe (rs σ) obs).2).
  { subst σ'. unfold Start.
    destruct (time_ParseDuration _) as [err|d]; [by exists []|].
    unfold NewTicker, extern. destruct (d <=? 0); [by exists []|].
    destruct (time_NewTicker d (world σ)) as [tk w1].
    apply (poll_observes fuel tk (set_world w1 (record (CallNewTicker d) σ))). }
  split; [exact Hobs|]. destruct Hobs as [obs ->].
  split; [apply observe_options|]. split.
  - rewrite observe_dom. apply union_subseteq_r.
  - apply observe_keeps_keyed.
Qed.

Lemma cycle_events_count (evs : list Event) :
  forallb is_cycle_event evs = true ->
  count is_select evs = 0%nat /\ count is_ticker_stop evs = 0%nat.
Proof.
  unfold count. induction evs as [|e evs IH]; [done|].
  simpl. intros [He Hevs]%andb_prop. destruct (IH Hevs) as [IH1 IH2].
  rewrite !filter_cons. by destruct e.
Qed.

(** X10: every tick of the ticker that the select takes starts exactly one
    cycle, and every cycle makes exactly one search: after [n] completed
    cycles the run has selected [n] times and searched [n] times. *)
Theorem one_search_per_tick (n : nat) (tk : Ticker) (σ σ' : State W) :
  cycles tk n σ σ' ->
  exists evs,
    events (trace σ') = events (trace σ) ++ evs /\
    count is_select evs = n /\
    count is_search evs = n.
Proof.
  induction 1 as [σ|n σ σ1 σ' w Htick Hsync _ (evs2 & Htr2 & Hsel2 & Hs2)].
  { exists []. by rewrite app_nil_r. }
  destruct (sync_shape (set_world w (record Select σ)))
    as (evs1 & _ & Htr1 & _ & Hc1 & Hs1 & _).
  rewrite Hsync in Htr1. cbn [final] in Htr1.
  rewrite events_set_world, events_record, <- app_assoc in Htr1.
  destruct (cycle_events_count evs1 Hc1) as [Hsel1 _].
  exists ([Select] ++ evs1 ++ evs2).
  rewrite Htr2, Htr1, !count_app, Hsel1, Hsel2, Hs1, Hs2, <- !app_assoc.
  by repeat split.
Qed.

(** The events of the poll loop, with the number of [ticker.Stop] calls. *)
Lemma poll_stops (fuel : nat) (tk : Ticker) (σ : State W) :
  exists evs,
    events (trace (outcome_state (poll fuel tk σ))) = events (trace σ) ++ evs /\
    match poll fuel tk σ with
    | Returned err _ =>
        err = None /\ count is_ticker_stop evs = 1%nat /\ last evs = Some CallTickerStop
    | Crashed _ _ => count is_ticker_stop evs = 1%nat /\ last evs = Some CallTickerStop
    | Blocked _ | Running _ => count is_ticker_stop evs = 0%nat
    end.
Proof.
  revert σ. induction fuel as [|fuel IH]; intros σ.
  { exists []. simpl. by rewrite app_nil_r. }
  simpl. destruct (select tk (world σ)) as [[[] w']|].
  - destruct (sync_shape (set_world w' (record Select σ)))
      as (evs1 & _ & Htr1 & _ & Hc1 & _).
    rewrite events_set_world, events_record, <- app_assoc in Htr1.
    destruct (cycle_events_count evs1 Hc1) as [_ Hstop1].
    destruct (sync _) as [[] σ1|msg σ1]; cbn [final] in Htr1.
    + destruct (IH σ1) as (evs2 & Htr2 & Hcase).
      exists ([Select] ++ evs1 ++ evs2).
      rewrite Htr2, Htr1, <- !app_assoc. split; [done|].
      rewrite !count_app, Hstop1.
      destruct (poll fuel tk σ1); try done.
      * destruct Hcase as (-> & Hn & Hlast). repeat split; [done|].
        rewrite !last_app, Hlast. done.
      * destruct Hcase as (Hn & Hlast). split; [done|].
        rewrite !last_app, Hlast. done.
    + exists ([Select] ++ evs1 ++ [CallTickerStop]). cbn [outcome_state].
      unfold stop. rewrite events_set_world, events_record, Htr1, <- !app_assoc.
      split; [done|]. rewrite !count_app, Hstop1. split; [done|].
      by rewrite !last_app.
  - exists [Select; CallTickerStop]. cbn [outcome_state]. unfold stop.
    rewrite !events_set_world, events_record, events_set_world, events_record.
    by rewrite <- app_assoc.
  - exists [Select]. cbn [outcome_state]. by rewrite events_record.
Qed.

(** X11: [Start] stops its ticker exactly once and as the last thing it
    does, on the return after a cancellation and on a panic inside a cycle
    alike; while it is looping or waiting the ticker has not been stopped;
    and when the interval does not parse nothing has happened at all, while
    a non-positive interval leaves only the failed [time.NewTicker]. *)
Theorem Start_stops_ticker_once (fuel : nat) (σ : State W) :
  exists evs,
    events (trace (outcome_state (Start fuel σ))) = events (trace σ) ++ evs /\
    match Start fuel σ with
    | Returned (Some _) _ => evs = []
    | Returned None _ =>
        count is_ticker_stop evs = 1%nat /\ last evs = Some CallTickerStop
    | Crashed _ _ =>
        (count is_ticker_stop evs = 1%nat /\ last evs = Some CallTickerStop) \/
        (exists d, d <= 0 /\ evs = [CallNewTicker d])
    | Blocked _ | Running _ => count is_ticker_stop evs = 0%nat
    end.
Proof.
  unfold Start. destruct (time_ParseDuration _) as [err|d].
  { exists []. by rewrite app_nil_r. }
  unfold NewTicker, extern. destruct (Z.leb_spec d 0) as [Hd|Hd].
  { exists [CallNewTicker d]. cbn [outcome_state]. rewrite events_record.
    split; [done|]. right. by exists d. }
  destruct (time_NewTicker d (world σ)) as [tk w1].
  destruct (poll_stops fuel tk (set_world w1 (record (CallNewTicker d) σ)))
    as (evs & Htr & Hcase).
  rewrite events_set_world, events_record, <- app_assoc in Htr.
  exists ([CallNewTicker d] ++ evs). split; [done|].
  destruct (poll fuel tk _); rewrite ?count_app, ?last_app.
  - destruct Hcase as (-> & Hn & ->). by split.
  - destruct Hcase as (Hn & ->). left. by split.
  - done.
  - done.
Qed.

(** The loop body on an observation whose commit SHA is the retained one. *)
Lemma sync_repo_same_sha repo f b sha old w1 (σ : State W) :
  entry_fields repo = Some f ->
  Repositories_GetBranch (l_login f) (l_name f) (l_default f) true (world σ)
    = (inr b, w1) ->
  head_sha b = Some sha ->
  let r := observed (options (rs σ)) f sha in
  repos (rs σ) !! key r = Some old ->
  CommitSHA old = sha ->
  exists σ',
    sync_repo repo σ = Ok tt σ' /\ rs σ' = rs σ /\ world σ' = w1 /\
    events (trace σ') =
      events (trace σ)
      ++ [lookup_of f;
          Log Debug "repository has not changed"
            [zap_Any_repo "repo" r; zap_Any_string "sha" (Some sha)]].
Proof.
  intros Hf Hb Hsha r Hold Hsame.
  assert (Hu : update (rs σ) r = (false, rs σ)).
  { apply (update_same_sha _ _ old Hold). by rewrite Hsame. }
  rewrite (sync_repo_unchanged repo f b sha (rs σ) w1 σ Hf Hb Hsha Hu).
  eexists. split; [done|]. split; [done|]. split; [done|].
  rewrite events_record, events_set_rs, events_looked_up. by rewrite <- app_assoc.
Qed.

(** X12: for a listed repository whose head commit is the one retained, the
    loop body costs the branch lookup and a debug line and nothing else: no
    stat, no clone, no pull, and the syncer is left as it is. *)
Theorem unchanged_is_quiet repo f b sha old w1 (σ : State W) :
  entry_fields repo = Some f ->
  Repositories_GetBranch (l_login f) (l_name f) (l_default f) true (world σ)
    = (inr b, w1) ->
  head_sha b = Some sha ->
  let r := observed (options (rs σ)) f sha in
  repos (rs σ) !! key r = Some old ->
  CommitSHA old = sha ->
  exists σ',
    sync_repo repo σ = Ok tt σ' /\ rs σ' = rs σ /\ world σ' = w1 /\
    events (trace σ') =
      events (trace σ)
      ++ [lookup_of f;
          Log Debug "repository has not changed"
            [zap_Any_repo "repo" r; zap_Any_string "sha" (Some sha)]].
Proof. apply sync_repo_same_sha. Qed.

(** X13: the record is stored before the mirror is attempted, so a mirror
    operation that failed is not attempted again while the head commit
    stays the same: once the loop body has treated an observation as new or
    changed --- whether [get] then succeeded or failed --- any later run of
    the body that finds the same commit SHA, on a syncer as that run left
    it, ends after the lookup without stat, clone or pull. *)
Theorem mirror_not_retried repo f b sha s w1 (σ : State W) :
  entry_fields repo = Some f ->
  Repositories_GetBranch (l_login f) (l_name f) (l_default f) true (world σ)
    = (inr b, w1) ->
  head_sha b = Some sha ->
  let r := observed (options (rs σ)) f sha in
  update (rs σ) r = (true, s) ->
  exists σ1,
    sync_repo repo σ = Ok tt σ1 /\
    forall (σ2 : State W) b2 w2,
      rs σ2 = rs σ1 ->
      Repositories_GetBranch (l_login f) (l_name f) (l_default f) true (world σ2)
        = (inr b2, w2) ->
      head_sha b2 = Some sha ->
      exists σ3,
        sync_repo repo σ2 = Ok tt σ3 /\ rs σ3 = rs σ2 /\ world σ3 = w2 /\
        events (trace σ3) =
          events (trace σ2)
          ++ [lookup_of f;
              Log Debug "repository has not changed"
                [zap_Any_repo "repo" r; zap_Any_string "sha" (Some sha)]].
Proof.
  intros Hf Hb Hsha r Hu.
  rewrite (sync_repo_changed repo f b sha s w1 σ Hf Hb Hsha Hu).
  fold r. set (σa := record _ _).
  destruct (get_runs r σa) as (e & σb & evs & Hg & Hrs & _).
  rewrite Hg.
  assert (Hs : rs σb = s) by (by rewrite Hrs).
  assert (Hopt : options s = options (rs σ)).
  { pose proof (update_options (rs σ) r) as Ho. by rewrite Hu in Ho. }
  assert (Hin : repos s !! key r = Some r).
  { pose proof (update_cases (rs σ) r) as Hc. rewrite Hu in Hc.
    destruct (repos (rs σ) !! key r) as [old|];
      [destruct (String.eqb _ _); [done|]|]; injection Hc as ->; apply lookup_insert_eq. }
  assert (Hnext : forall σ1 : State W, rs σ1 = s ->
            forall (σ2 : State W) b2 w2,
              rs σ2 = rs σ1 ->
              Repositories_GetBranch (l_login f) (l_name f) (l_default f) true (world σ2)
                = (inr b2, w2) ->
              head_sha b2 = Some sha ->
              exists σ3,
                sync_repo repo σ2 = Ok tt σ3 /\ rs σ3 = rs σ2 /\ world σ3 = w2 /\
                events (trace σ3) =
                  events (trace σ2)
                  ++ [lookup_of f;
                      Log Debug "repository has not changed"
                        [zap_Any_repo "repo" r; zap_Any_string "sha" (Some sha)]]).
  { intros σ1 H1 σ2 b2 w2 H2 Hb2 Hsha2.
    assert (Hr : observed (options (rs σ2)) f sha = r).
    { subst r. by rewrite H2, H1, Hopt. }
    pose proof (sync_repo_same_sha repo f b2 sha r w2 σ2 Hf Hb2 Hsha2) as Hq.
    cbn zeta in Hq. rewrite Hr in Hq. apply Hq; [|done].
    by rewrite H2, H1. }
  destruct e as [err|]; eexists; (split; [done|]); apply Hnext; done.
Qed.

(** X14: an entry of the listing with a nil pointer among the fields the
    loop reads stops the cycle with a panic at that entry: the entries
    before it have been processed, none after it is, and [Start], which
    does not recover, is brought down after its deferred [ticker.Stop]. *)
Theorem incomplete_entry_crashes (σ σa σb : State W) result total w1 pre bad rest :
  Search_Repositories (query (options (rs σ))) (world σ) = (inr result, w1) ->
  github.Total result = Some total ->
  github.Repositories result = pre ++ bad :: rest ->
  entry_fields bad = None ->
  σa = record (Log Debug "search" [zap_Int "total" total])
         (set_world w1
            (record (CallSearch (query (options (rs σ))))
               (record (Log Debug "query string"
                          [zap_String "query" (query (options (rs σ)))]) σ))) ->
  for_each sync_repo pre σa = Ok tt σb ->
  sync σ = Panic "invalid memory address or nil pointer dereference" σb /\
  forall fuel tk (σ0 : State W) w0,
    select tk (world σ0) = Some (SelTick, w0) ->
    σ = set_world w0 (record Select σ0) ->
    poll (S fuel) tk σ0
      = Crashed "invalid memory address or nil pointer dereference" (stop tk σb).
Proof.
  intros Hs Htotal Hl Hbad -> Hpre.
  assert (Hfe : forall l σ1 σ2,
             for_each sync_repo l σ1 = Ok tt σ2 ->
             for_each sync_repo (l ++ bad :: rest) σ1
             = Panic "invalid memory address or nil pointer dereference" σ2).
  { induction l as [|x l IH]; intros σ1 σ2 Hrun.
    - injection Hrun as <-. rewrite app_nil_l, for_each_cons.
      by rewrite (sync_repo_nil bad σ1 Hbad).
    - rewrite <- app_comm_cons, for_each_cons. rewrite for_each_cons in Hrun.
      destruct (sync_repo x σ1) as [[] σ'|msg σ']; [by apply IH|done]. }
  assert (Hsync : sync σ = Panic "invalid memory address or nil pointer dereference" σb).
  { rewrite sync_searched. cbn zeta. rewrite Hs. cbn [fst snd].
    rewrite Htotal, Hl. by apply Hfe. }
  split; [exact Hsync|].
  intros fuel tk σ0 w0 Htick ->. by rewrite (poll_tick _ _ _ _ Htick), Hsync.
Qed.

End EngineMore.

(** ** The configuration *)

(** One round of [envconfig.Process], case by case. *)
Lemma Process_set env tags0 st infos c key v c' :
  config.Get tags0 "envconfig" = key ->
  env !! key = Some v ->
  st v c = Some c' ->
  config.Process env (config.mkField tags0 st :: infos) c = config.Process env infos c'.
Proof. intros <- Hv Hs. cbn [config.Process config.tags config.set]. by rewrite Hv, Hs. Qed.

Lemma Process_unparsed env tags0 st infos c key v :
  config.Get tags0 "envconfig" = key ->
  env !! key = Some v ->
  st v c = None ->
  (config.Process env (config.mkField tags0 st :: infos) c).1 = c.
Proof. intros <- Hv Hs. cbn [config.Process config.tags config.set]. by rewrite Hv, Hs. Qed.

Lemma Process_skip env tags0 st infos c key :
  config.Get tags0 "envconfig" = key ->
  env !! key = None ->
  config.Get tags0 "default" = "" ->
  config.isTrue (config.Get tags0 "required") = false ->
  config.Process env (config.mkField tags0 st :: infos) c = config.Process env infos c.
Proof.
  intros <- Hv Hd Hr. cbn [config.Process config.tags config.set].
  by rewrite Hv, Hd, Hr.
Qed.

Lemma Process_required env tags0 st infos c key :
  config.Get tags0 "envconfig" = key ->
  env !! key = None ->
  config.Get tags0 "default" = "" ->
  config.isTrue (config.Get tags0 "required") = true ->
  (config.Process env (config.mkField tags0 st :: infos) c).1 = c.
Proof.
  intros <- Hv Hd Hr. cbn [config.Process config.tags config.set].
  by rewrite Hv, Hd, Hr.
Qed.

Lemma Process_default env tags0 st infos c key def c' :
  config.Get tags0 "envconfig" = key ->
  env !! key = None ->
  config.Get tags0 "default" = def ->
  def <> "" ->
  st def c = Some c' ->
  config.Process env (config.mkField tags0 st :: infos) c = config.Process env infos c'.
Proof.
  intros <- Hv <- Hd Hs. cbn [config.Process config.tags config.set].
  rewrite Hv, Hs. by destruct (String.eqb_spec (config.Get tags0 "default") "").
Qed.

Lemma Process_string env tags0 f infos c key def :
  config.Get tags0 "envconfig" = key ->
  config.Get tags0 "default" = def ->
  def <> "" ->
  config.Process env (config.mkField tags0 (config.set_string f) :: infos) c
  = config.Process env infos (f (default def (env !! key)) c).
Proof.
  intros Hk Hdef Hd. destruct (env !! key) as [v|] eqn:Hv; cbn [default].
  - by apply (Process_set _ _ _ _ _ key v).
  - by apply (Process_default _ _ _ _ _ key def).
Qed.

Ltac config_simpl :=
  cbn [config.GithubToken config.GithubTokenUser config.GithubUser
       config.GithubPollInterval config.GithubTopic config.GodocPort
       config.GodocRoot config.GodocIndexInterval config.LogLevel
       config.zero fst default].

Ltac process_set key v Hv :=
  erewrite (Process_set _ _ _ _ _ key v); [|reflexivity|exact Hv|reflexivity];
  config_simpl.

Ltac process_skip key Hv :=
  erewrite (Process_skip _ _ _ _ _ key); [|reflexivity|exact Hv|reflexivity|reflexivity];
  config_simpl.

Ltac process_string key def :=
  erewrite (Process_string _ _ _ _ _ key def); [|reflexivity|reflexivity|done];
  config_simpl.

(** X15: with [GITHUB_TOKEN] set and [GODOC_PORT] left to its default,
    [config.New] takes every variable that is set --- also when it is set
    to the empty string --- and the default of its tag otherwise; the token
    user falls back to the user when it is unset or empty. [GITHUB_USER]
    need not be set: its tag is [requrired], which the library does not
    read, and without it the user is empty. *)
Theorem New_defaults (ParseInt : string -> option Z) (env : gmap string string)
    (token : string) :
  env !! "GITHUB_TOKEN" = Some token ->
  env !! "GODOC_PORT" = None ->
  ParseInt "6060" = Some 6060 ->
  let var k d := default d (env !! k) in
  let user := var "GITHUB_USER" "" in
  config.New ParseInt env =
    config.mkConfig token
      (if String.eqb (var "GITHUB_TOKEN_USER" "") "" then user
       else var "GITHUB_TOKEN_USER" "")
      user
      (var "GITHUB_POLL_INTERVAL" "5m")
      (var "GITHUB_TOPIC" "godoc")
      6060
      (var "GODOC_ROOT" "/usr/local/go")
      (var "GODOC_INDEX_INTERVAL" "1m")
      (var "LOG_LEVEL" "INFO").
Proof.
  intros Htoken Hport Hparse var user. subst var user. cbv beta.
  unfold config.New, config.fields.
  process_set "GITHUB_TOKEN" token Htoken.
  destruct (env !! "GITHUB_TOKEN_USER") as [tu|] eqn:Htu;
    [process_set "GITHUB_TOKEN_USER" tu Htu|process_skip "GITHUB_TOKEN_USER" Htu];
    (destruct (env !! "GITHUB_USER") as [u|] eqn:Hu;
     [process_set "GITHUB_USER" u Hu|process_skip "GITHUB_USER" Hu]);
    process_string "GITHUB_POLL_INTERVAL" "5m";
    process_string "GITHUB_TOPIC" "godoc";
    (erewrite (Process_default _ _ _ _ _ "GODOC_PORT" "6060");
     [|reflexivity|exact Hport|reflexivity|done
      |cbn [config.set mbind option_bind]; rewrite Hparse; reflexivity]);
    config_simpl;
    process_string "GODOC_ROOT" "/usr/local/go";
    process_string "GODOC_INDEX_INTERVAL" "1m";
    process_string "LOG_LEVEL" "INFO";
    cbn [config.Process]; config_simpl; unfold id;
    try (destruct (String.eqb tu "")); reflexivity.
Qed.

(** X16: a failure of [envconfig.Process] is silent and costs every later
    field its value, defaults included. Without [GITHUB_TOKEN], the first
    field, [config.New] returns the zero configuration whatever else is
    set: no poll interval, no topic, port 0. With a [GODOC_PORT] that does
    not parse, the port is 0 and the root, the index interval and the log
    level are empty. *)
Theorem New_silent_failure (ParseInt : string -> option Z) (env : gmap string string) :
  (env !! "GITHUB_TOKEN" = None -> config.New ParseInt env = config.zero) /\
  (forall token port,
      env !! "GITHUB_TOKEN" = Some token ->
      env !! "GODOC_PORT" = Some port ->
      ParseInt port = None ->
      let c := config.New ParseInt env in
      config.GithubToken c = token /\
      config.GodocPort c = 0 /\
      config.GodocRoot c = "" /\
      config.GodocIndexInterval c = "" /\
      config.LogLevel c = "").
Proof.
  split.
  - intros Htoken. unfold config.New, config.fields.
    erewrite (Process_required _ _ _ _ _ "GITHUB_TOKEN");
      [|reflexivity|exact Htoken|reflexivity|reflexivity].
    reflexivity.
  - intros token port Htoken Hport Hparse c. subst c.
    unfold config.New, config.fields.
    process_set "GITHUB_TOKEN" token Htoken.
    destruct (env !! "GITHUB_TOKEN_USER") as [tu|] eqn:Htu;
      [process_set "GITHUB_TOKEN_USER" tu Htu|process_skip "GITHUB_TOKEN_USER" Htu];
      (destruct (env !! "GITHUB_USER") as [u|] eqn:Hu;
       [process_set "GITHUB_USER" u Hu|process_skip "GITHUB_USER" Hu]);
      process_string "GITHUB_POLL_INTERVAL" "5m";
      process_string "GITHUB_TOPIC" "godoc";
      (erewrite (Process_unparsed _ _ _ _ _ "GODOC_PORT" port);
       [|reflexivity|exact Hport
        |cbn [config.set mbind option_bind]; rewrite Hparse; reflexivity]);
      config_simpl;
      try (destruct (String.eqb tu "")); by repeat split.
Qed.

(** ** The additional properties in concrete cases *)

(** a and b observed in either order. *)
Lemma update_commute_witness :
  let rs := New (scenario.opts "5m") in
  key (cases.alice_a "c1") <> key (cases.alice_b "c2") /\
  (update (update rs (cases.alice_a "c1")).2 (cases.alice_b "c2")).2
  = (update (update rs (cases.alice_b "c2")).2 (cases.alice_a "c1")).2.
Proof.
  intros rs.
  assert (Hne : key (cases.alice_a "c1") <> key (cases.alice_b "c2")) by discriminate.
  split; [exact Hne|].
  exact (proj1 (update_commute rs _ _ Hne)).
Defined.

(** A first listing of a and b. *)
Lemma observe_fresh_all_new_witness :
  let obs := [cases.alice_a "c1"; cases.alice_b "c2"] in
  NoDup (key <$> obs) /\
  (observe (New (scenario.opts "5m")) obs).1 = [true; true].
Proof.
  intros obs.
  assert (Hnd : NoDup (key <$> obs)).
  { apply NoDup_cons. split; [|apply NoDup_singleton].
    intros Hin. apply list_elem_of_singleton in Hin. discriminate Hin. }
  split; [exact Hnd|].
  exact (proj1 (observe_fresh_all_new (scenario.opts "5m") obs Hnd)).
Defined.

(** One completed cycle after the ticker was armed. *)
Lemma one_search_per_tick_witness :
  let tk := mkTicker 300 in
  let σ0 := scenario.start "300ns" (sim.set_tick_due 300 (scenario.world0 None)) in
  exists σ' evs,
    cycles tk 1 σ0 σ' /\
    events (trace σ') = events (trace σ0) ++ evs /\
    count is_select evs = 1%nat /\
    count is_search evs = 1%nat.
Proof.
  intros tk σ0.
  assert (Hc : cycles tk 1 σ0 (final (sync (set_world
                 (sim.set_tick_due 600 (sim.set_clock 300 (world σ0)))
                 (record Select σ0))))).
  { eapply cycles_S; [reflexivity|vm_compute; reflexivity|apply cycles_O]. }
  destruct (one_search_per_tick 1 tk σ0 _ Hc) as (evs & Htr & Hsel & Hs).
  eexists _, evs. split; [exact Hc|]. by repeat split.
Defined.

(** The syncer retains a at c1, and a is listed at c1. *)
Lemma unchanged_is_quiet_witness :
  let σ := cases.knows_a in
  let f := scenario.fields "alice" "a" in
  let w1 := sim.set_clock 10 (world σ) in
  (entry_fields (scenario.listed "alice" "a") = Some f /\
   Repositories_GetBranch "alice" "a" "main" true (world σ)
     = (inr (scenario.branch_at "c1"), w1) /\
   repos (rs σ) !! key (cases.alice_a "c1") = Some (cases.alice_a "c1")) /\
  exists σ',
    sync_repo (scenario.listed "alice" "a") σ = Ok tt σ' /\
    rs σ' = rs σ /\
    count is_stat (events (trace σ')) = 0%nat.
Proof.
  intros σ f w1.
  assert (Hf : entry_fields (scenario.listed "alice" "a") = Some f) by reflexivity.
  assert (Hb : Repositories_GetBranch (l_login f) (l_name f) (l_default f) true (world σ)
               = (inr (scenario.branch_at "c1"), w1)) by reflexivity.
  assert (Hold : repos (rs σ) !! key (observed (options (rs σ)) f "c1")
                 = Some (cases.alice_a "c1")) by reflexivity.
  split; [by repeat split|].
  destruct (unchanged_is_quiet _ f _ "c1" _ w1 σ Hf Hb eq_refl Hold eq_refl)
    as (σ' & Hrun & Hrs & _ & Htr).
  exists σ'. split; [exact Hrun|]. split; [exact Hrs|]. by rewrite Htr.
Defined.

(** The clone of a fails in the first run of the loop body; a second run
    that finds the same commit does not try again. *)
Lemma mirror_not_retried_witness :
  let σ := scenario.start "5m" scenario.broken_a in
  let repo := scenario.listed "alice" "a" in
  let f := scenario.fields "alice" "a" in
  let σ1 := final (sync_repo repo σ) in
  last (events (trace σ1))
    = Some (Log Error "unable to update repository"
              [zap_Error (ErrorString "authentication required")]) /\
  exists σ3,
    sync_repo repo σ1 = Ok tt σ3 /\ rs σ3 = rs σ1 /\
    count is_stat (events (trace σ3)) = count is_stat (events (trace σ1)).
Proof.
  intros σ repo f σ1.
  assert (Hf : entry_fields repo = Some f) by reflexivity.
  assert (Hb : Repositories_GetBranch (l_login f) (l_name f) (l_default f) true (world σ)
               = (inr (scenario.branch_at "c1"), sim.set_clock 10 (world σ)))
    by reflexivity.
  assert (Hu : update (rs σ) (observed (options (rs σ)) f "c1")
               = (true, (update (rs σ) (observed (options (rs σ)) f "c1")).2))
    by reflexivity.
  assert (Hrun1 : sync_repo repo σ = Ok tt σ1) by (vm_compute; reflexivity).
  assert (Hb2 : Repositories_GetBranch (l_login f) (l_name f) (l_default f) true
                  (world σ1)
                = (inr (scenario.branch_at "c1"), sim.set_clock 30 (world σ1)))
    by (vm_compute; reflexivity).
  split; [vm_compute; reflexivity|].
  destruct (mirror_not_retried repo f _ "c1" _ _ σ Hf Hb eq_refl Hu)
    as (σ1' & Hrun & Hnext).
  rewrite Hrun1 in Hrun. injection Hrun as <-.
  destruct (Hnext σ1 _ _ eq_refl Hb2 eq_refl) as (σ3 & Hrun3 & Hrs3 & _ & Htr3).
  exists σ3. split; [exact Hrun3|]. split; [exact Hrs3|].
  rewrite Htr3, count_app. unfold count at 2. simpl. lia.
Defined.

(** A listing of three whose second entry has no owner: a is processed, b
    is not, and the run is brought down. *)
Lemma incomplete_entry_crashes_witness :
  let σ0 := scenario.start "300ns" (sim.set_tick_due 300 cases.holed_world) in
  exists σb,
    poll 1 (mkTicker 300) σ0
      = Crashed "invalid memory address or nil pointer dereference"
          (stop (mkTicker 300) σb) /\
    lookups (trace σb) = [CallGetBranch "alice" "a" "main" true].
Proof.
  intros σ0.
  set (w0 := sim.set_tick_due 600 (sim.set_clock 300 (world σ0))).
  set (σ := set_world w0 (record Select σ0)).
  set (σa := record (Log Debug "search" [zap_Int "total" 3])
               (set_world (sim.set_clock 310 (world σ))
                  (record (CallSearch (query (options (rs σ))))
                     (record (Log Debug "query string"
                                [zap_String "query" (query (options (rs σ)))]) σ)))).
  set (σb := final (for_each sync_repo [scenario.listed "alice" "a"] σa)).
  assert (Hs : Search_Repositories (query (options (rs σ))) (world σ)
               = (inr cases.holed, sim.set_clock 310 (world σ))) by reflexivity.
  assert (Hpre : for_each sync_repo [scenario.listed "alice" "a"] σa = Ok tt σb)
    by (vm_compute; reflexivity).
  assert (Htick : select (mkTicker 300) (world σ0) = Some (SelTick, w0)) by reflexivity.
  destruct (incomplete_entry_crashes σ σa σb cases.holed 3 _
              [scenario.listed "alice" "a"] cases.ownerless
              [scenario.listed "alice" "b"] Hs eq_refl eq_refl eq_refl eq_refl Hpre)
    as [_ Hcrash].
  exists σb. split; [exact (Hcrash 0%nat _ σ0 w0 Htick eq_refl)|].
  vm_compute. reflexivity.
Defined.

(** An environment with token, user and interval; and one without token. *)
Lemma New_defaults_witness :
  (cases.env !! "GITHUB_TOKEN" = Some "t0k3n" /\
   cases.env !! "GODOC_PORT" = None /\
   config.decimal "6060" = Some 6060) /\
  config.New config.decimal cases.env
  = config.mkConfig "t0k3n" "alice" "alice" "10m" "godoc" 6060 "/usr/local/go" "1m" "INFO".
Proof.
  assert (Htoken : cases.env !! "GITHUB_TOKEN" = Some "t0k3n") by reflexivity.
  assert (Hport : cases.env !! "GODOC_PORT" = None) by reflexivity.
  assert (Hparse : config.decimal "6060" = Some 6060) by reflexivity.
  split; [by repeat split|].
  exact (New_defaults config.decimal cases.env "t0k3n" Htoken Hport Hparse).
Defined.

(** No token at all; and a port that is not a number. *)
Lemma New_silent_failure_witness :
  let env1 : gmap string string := {[ "GITHUB_USER" := "alice"; "GITHUB_TOPIC" := "docs" ]} in
  let env2 := <["GODOC_PORT" := "http"]> cases.env in
  (env1 !! "GITHUB_TOKEN" = None /\ config.New config.decimal env1 = config.zero) /\
  (env2 !! "GODOC_PORT" = Some "http" /\ config.decimal "http" = None /\
   config.GodocPort (config.New config.decimal env2) = 0 /\
   config.GodocRoot (config.New config.decimal env2) = "").
Proof.
  intros env1 env2.
  assert (H1 : env1 !! "GITHUB_TOKEN" = None) by reflexivity.
  assert (H2 : env2 !! "GITHUB_TOKEN" = Some "t0k3n") by reflexivity.
  assert (H3 : env2 !! "GODOC_PORT" = Some "http") by reflexivity.
  assert (H4 : config.decimal "http" = None) by reflexivity.
  split.
  - split; [exact H1|]. exact (proj1 (New_silent_failure config.decimal env1) H1).
  - destruct (proj2 (New_silent_failure config.decimal env2) _ _ H2 H3 H4)
      as (_ & Hport & Hroot & _).
    by repeat split.
Defined.

(** ** Mirror paths and keys *)

Lemma append_cancel (p a b : string) : p +:+ a = p +:+ b -> a = b.
Proof.
  induction p as [|c p IH]; cbv [String.append]; fold String.append; [done|].
  intros [= Heq]. by apply IH.
Qed.

(** X17: the mirror directory of a listed repository is determined by, and
    determines, its full name: under one root, two listed repositories get
    the same local path exactly when their full names are equal, whatever
    their commits, owners, names or clone URLs. *)
Theorem mirror_paths_distinct (o : SyncerOptions) (f1 f2 : Listed) (sha1 sha2 : string) :
  LocalPath (observed o f1 sha1) = LocalPath (observed o f2 sha2) <->
  l_full f1 = l_full f2.
Proof.
  unfold observed. cbn [LocalPath]. split.
  - intros Heq. apply append_cancel in Heq. by apply append_cancel in Heq.
  - by intros ->.
Qed.

(** X18: where names contain no slash, the string key stands for the pair
    of owner and name: on a syncer whose records sit under their own keys,
    the key of an observation is retained exactly when a record with the
    same owner and name is, and otherwise the observation is new. *)
Theorem key_stands_for_pair (rs : Syncer) (r : Repo) :
  keyed rs ->
  plain (Name r) = true ->
  (forall k r', repos rs !! k = Some r' -> plain (Name r') = true) ->
  (is_Some (repos rs !! key r) <->
   exists k r', repos rs !! k = Some r' /\ Owner r' = Owner r /\ Name r' = Name r) /\
  ((forall k r', repos rs !! k = Some r' -> (Owner r', Name r') <> (Owner r, Name r)) ->
   (update rs r).1 = true).
Proof.
  intros Hk Hplain Hall.
  assert (Hiff : is_Some (repos rs !! key r) <->
                 exists k r', repos rs !! k = Some r' /\ Owner r' = Owner r
                              /\ Name r' = Name r).
  { split.
    - intros [r' Hl]. exists (key r), r'. split; [done|].
      pose proof (Hk _ _ Hl) as Hkey. unfold key in Hkey.
      destruct (key_injective_plain _ _ _ _ Hplain (Hall _ _ Hl) Hkey) as [Hn Ho].
      by split.
    - intros (k & r' & Hl & Ho & Hn).
      assert (k = key r) as -> by (rewrite (Hk _ _ Hl); unfold key; by rewrite Ho, Hn).
      by exists r'. }
  split; [exact Hiff|].
  intros Hfresh. rewrite update_cases.
  destruct (repos rs !! key r) as [old|] eqn:Hl; [|done].
  destruct (proj1 Hiff (ltac:(by eexists))) as (k & r' & Hl' & Ho & Hn).
  destruct (Hfresh _ _ Hl'). by rewrite Ho, Hn.
Qed.

(** b is retained, and a is observed. *)
Lemma key_stands_for_pair_witness :
  let rs := (update (New (scenario.opts "5m")) (cases.alice_b "c2")).2 in
  let r := cases.alice_a "c1" in
  (keyed rs /\ plain (Name r) = true) /\
  repos rs !! key r = None /\
  (update rs r).1 = true.
Proof.
  intros rs r.
  assert (Hk : keyed rs) by (apply update_keyed, New_keyed).
  assert (Hp : plain (Name r) = true) by reflexivity.
  assert (Hone : forall k r', repos rs !! k = Some r' -> r' = cases.alice_b "c2").
  { assert (Hrs : repos rs = <[key (cases.alice_b "c2") := cases.alice_b "c2"]> ∅)
      by reflexivity.
    intros k r' Hl. rewrite Hrs in Hl.
    apply lookup_insert_Some in Hl as [[_ <-]|[_ Hl]]; [done|].
    by rewrite lookup_empty in Hl. }
  assert (Hall : forall k r', repos rs !! k = Some r' -> plain (Name r') = true).
  { intros k r' Hl. by rewrite (Hone _ _ Hl). }
  split; [by split|]. split; [reflexivity|].
  apply (proj2 (key_stands_for_pair rs r Hk Hp Hall)).
  intros k r' Hl. by rewrite (Hone _ _ Hl).
Defined.
